(** * Scratch-card payout engine and ledger bookkeeping

    A shallow embedding of the game engine ([calculateScratchPrize],
    [playScratchCard]), of the settings accessor ([getSetting]) and of the
    first-deposit rollover activation ([applyFirstDepositRollover]).
    Around them: the account operations ([updateUserBalance],
    [updateRollover]), [setSetting], the error handler and the routes of the
    game, of the RTP setting, of the deposit status check and of the gateway
    webhook, the fraud check ([checkUserFraud]) and two functions of the
    gateway client ([formatPixKey], [isValidWebhookSource]).

    Modelling conventions.
    - In the ledger operations JavaScript numbers are read as exact
      rationals ([Q]); numeric results are compared with [==].  NaN and the
      infinities are not represented.  The engine is given twice: over exact
      numbers ([calculateScratchPrize]), which is what the ledger operations
      call, and in double precision ([calculateScratchPrize_binary64]), every
      operation rounded as JavaScript rounds it.
    - [Math.random()] is an explicit argument [random].
    - The PostgreSQL database is a record of tables.  The two statements by
      which a round writes, the UPDATE of the user's row and the INSERT of the
      game round, write what the columns keep of the values bound to them:
      [DECIMAL(12,2)] and [DECIMAL(6,2)] round to two decimal places and
      refuse a value out of their range, and the CHECK constraints refuse a
      negative balance or rollover.  The account operations and the rollover
      activation write the value bound as it is; what is proved of the values
      they commit is proved for amounts of money, whole cents within the range
      of the column, which the column keeps unchanged.
    - Every round trip to the database may also be refused by the server for
      reasons of its own (a lost connection, say); the oracle [faults] says
      which ones are.  A transaction installs its writes at COMMIT and at no
      other moment. *)

From Stdlib Require Import QArith Qround Qminmax Qabs Qpower Lqa Lia Bool Ascii
  String.
From stdpp Require Import gmap strings pretty.

Open Scope Q_scope.

(** ** JavaScript numeric primitives *)

(** [a >= b] and [a < b] on numbers. *)
Definition js_ge (a b : Q) : bool := Qle_bool b a.
Definition js_lt (a b : Q) : bool := negb (Qle_bool b a).

(** [Math.round(x)]: the integer nearest to [x], a tie going to the larger
    one. *)
Definition Math_round (x : Q) : Z := Qfloor (x + 0.5).

(** [Math.max(a, b)]. *)
Definition Math_max (a b : Q) : Q := if Qle_bool a b then b else a.

(** [parseFloat(x.toFixed(2))]: [toFixed] drops the sign, takes the integer
    [n] with [n / 100] nearest to the magnitude (the larger one on a tie),
    and puts the sign back. *)
Definition toFixed2 (x : Q) : Q :=
  if js_lt x 0
  then - (inject_Z (Qfloor ((- x) * 100 + 0.5)) / 100)
  else inject_Z (Qfloor (x * 100 + 0.5)) / 100.

(** [list.includes(v)]. *)
Definition includes (l : list Q) (v : Q) : bool := existsb (Qeq_bool v) l.

(** ** The game engine *)

Definition ALLOWED_BETS : list Q :=
  [0.50; 1.00; 1.50; 2.00; 3.00; 5.00; 10.00; 15.00; 20.00; 25.00; 30.00;
   35.00; 40.00; 45.00; 50.00].

Record scratch_prize := { multiplier : Q; prizeAmount : Q }.

(** The stake-dependent bonus of [calculateScratchPrize]. *)
Definition bonusChance (betAmount : Q) : Q :=
  if js_ge betAmount 50 then 0.15
  else if js_ge betAmount 30 then 0.12
  else if js_ge betAmount 20 then 0.09
  else if js_ge betAmount 10 then 0.06
  else if js_ge betAmount 5 then 0.03
  else 0.

Definition threshold1 (bonus : Q) : Q := 0.02 + bonus * 0.15.
Definition threshold2 (bonus : Q) : Q := 0.07 + bonus * 0.30.
Definition threshold3 (bonus : Q) : Q := 0.22 + bonus * 0.40.
Definition threshold4 (bonus : Q) : Q := 0.50 + bonus * 0.15.

(** The multiplier chosen by the draw, before the RTP adjustment. *)
Definition drawnMultiplier (random bonus : Q) : Q :=
  if js_lt random (threshold1 bonus) then 10
  else if js_lt random (threshold2 bonus) then 5
  else if js_lt random (threshold3 bonus) then 2
  else if js_lt random (threshold4 bonus) then 1
  else 0.

Definition calculateScratchPrize (random betAmount rtpPercentage : Q)
    : scratch_prize :=
  let bonus := bonusChance betAmount in
  let multiplier := drawnMultiplier random bonus in
  let rtpFactor := rtpPercentage / 95.0 in
  let adjustedMultiplier := multiplier * rtpFactor in
  let prizeAmount := betAmount * adjustedMultiplier in
  {| multiplier := adjustedMultiplier;
     prizeAmount := inject_Z (Math_round (prizeAmount * 100)) / 100 |}.

(** ** The database *)

(** A row of [users], restricted to the columns the ledger uses. *)
Record user_row := {
  balance : Q;
  rollover_required : Q;
  first_deposit_made : bool
}.

(** A row of [game_rounds]; [result_data] is the JSON object [{ rtp }],
    kept as the number it carries. *)
Record game_round := {
  user_id : string;
  game_type : string;
  bet_amount : Q;
  prize_amount : Q;
  round_multiplier : Q;
  result_data : Q
}.

Record database := {
  users : gmap string user_row;
  game_rounds : list game_round;
  settings : gmap string string
}.

(** The money columns are [DECIMAL(12,2)] and the multiplier of a game
    round is [DECIMAL(6,2)]: a value is kept rounded to two decimal places, a
    half going away from zero, and is refused when the rounded value needs
    more than [precision] digits. *)
Definition hundredths (x : Q) : Z :=
  if js_lt x 0 then (- Qfloor ((- x) * 100 + 0.5))%Z else Qfloor (x * 100 + 0.5).

Definition DECIMAL (precision : Z) (x : Q) : option Q :=
  let n := hundredths x in
  if (Z.abs n <? 10 ^ precision)%Z then Some (inject_Z n / 100) else None.

(** What [game_rounds] keeps of the values bound to an INSERT. *)
Definition stored_round (row : game_round) : option game_round :=
  match DECIMAL 12 (bet_amount row), DECIMAL 12 (prize_amount row),
        DECIMAL 6 (round_multiplier row) with
  | Some stake, Some won, Some times =>
      Some {| user_id := user_id row; game_type := game_type row;
              bet_amount := stake; prize_amount := won;
              round_multiplier := times; result_data := result_data row |}
  | _, _, _ => None
  end.

(** The statements the ledger sends, and what a connection does. *)
Inductive statement :=
| BEGIN
| COMMIT
| ROLLBACK
| SELECT_user_FOR_UPDATE (id : string)
| SELECT_setting (key : string)
| UPDATE_user_ledger (newBalance newRollover : Q) (id : string)
| INSERT_game_round (row : game_round)
| UPDATE_first_deposit (amount : Q) (id : string).

Inductive event :=
| PoolConnect
| ClientQuery (s : statement)
| PoolQuery (s : statement)
| ClientRelease.

(** The errors a call may throw.  The engine throws plain [Error] objects;
    they are told apart here by what they report: an invalid stake, a
    missing user, a balance that does not cover the stake.  Everything the
    database driver throws is a [StorageFailure]. *)
Inductive error := InvalidBet | NotFound | InsufficientFunds | StorageFailure.

Inductive outcome (A : Type) :=
| Returned (a : A)
| Thrown (e : error).
Arguments Returned {A} a.
Arguments Thrown {A} e.

(** [stored] is the committed database, [session] what the open
    transaction of the client sees, [calls] the number of round trips made
    so far and [trace] their log. *)
Record world := {
  stored : database;
  session : database;
  calls : nat;
  trace : list event
}.

Definition M (A : Type) : Type := world -> outcome A * world.

Definition ret {A} (a : A) : M A := fun w => (Returned a, w).

Definition throw {A} (e : error) : M A := fun w => (Thrown e, w).

Definition bind {A B} (m : M A) (k : A -> M B) : M B :=
  fun w =>
    match m w with
    | (Returned a, w1) => k a w1
    | (Thrown e, w1) => (Thrown e, w1)
    end.

Notation "x <- m ;; k" := (bind m (fun x => k))
  (at level 100, m at next level, right associativity).
Notation "m ;;; k" := (bind m (fun _ => k))
  (at level 100, right associativity).

(** [try { body } catch (e) { handler e } finally { final }], for a [final]
    block that cannot throw. *)
Definition try_catch_finally {A} (body : M A) (handler : error -> M A)
    (final : world -> world) : M A :=
  fun w =>
    let '(r, w1) :=
      match body w with
      | (Thrown e, w1) => handler e w1
      | (Returned a, w1) => (Returned a, w1)
      end in
    (r, final w1).

Definition log (ev : event) (w : world) : world :=
  {| stored := stored w; session := session w; calls := calls w;
     trace := trace w ++ [ev] |}.

Definition with_session (s : database) (w : world) : world :=
  {| stored := stored w; session := s; calls := calls w; trace := trace w |}.

Definition with_stored (s : database) (w : world) : world :=
  {| stored := s; session := session w; calls := calls w; trace := trace w |}.

Definition set_users (u : gmap string user_row) (d : database) : database :=
  {| users := u; game_rounds := game_rounds d; settings := settings d |}.

Definition push_game_round (r : game_round) (d : database) : database :=
  {| users := users d; game_rounds := game_rounds d ++ [r];
     settings := settings d |}.

(** What [SET balance = $1, rollover_required = $2] makes of a row. *)
Definition settled_row (newBalance newRollover : Q) (u : user_row) : user_row :=
  {| balance := newBalance; rollover_required := newRollover;
     first_deposit_made := first_deposit_made u |}.

(** What [SET rollover_required = rollover_required + $1,
    first_deposit_made = true] makes of a row. *)
Definition activated_row (amount : Q) (u : user_row) : user_row :=
  {| balance := balance u; rollover_required := rollover_required u + amount;
     first_deposit_made := true |}.

(** A truthy string value: neither [null]/[undefined] nor empty. *)
Definition truthy (v : option string) : bool :=
  match v with
  | Some s => negb (String.eqb s "")
  | None => false
  end.

(** What [playScratchCard] returns: [{ success, prize, finalBalance,
    multiplier, betAmount }]. *)
Record play_result := {
  success : bool;
  prize : Q;
  finalBalance : Q;
  result_multiplier : Q;
  result_betAmount : Q
}.

Section Ledger.

(** [faults n] holds when the server refuses round trip number [n]. *)
Variable faults : nat -> bool.

(** The number a settings text denotes. *)
Variable parseFloat : string -> Q.

(** One round trip: it is logged and counted; when refused it throws and
    has no effect. *)
Definition round_trip {A} (ev : event) (effect : world -> A * world) : M A :=
  fun w =>
    let w1 := {| stored := stored w; session := session w;
                 calls := S (calls w); trace := trace w ++ [ev] |} in
    if faults (calls w) then (Thrown StorageFailure, w1)
    else let '(a, w2) := effect w1 in (Returned a, w2).

(** A round trip whose statement the server also refuses for what it
    asks: a value out of the range of its column, a violated CHECK
    constraint.  A refused statement has no effect. *)
Definition constrained_trip {A} (ev : event) (effect : world -> option (A * world))
    : M A :=
  fun w =>
    let w1 := {| stored := stored w; session := session w;
                 calls := S (calls w); trace := trace w ++ [ev] |} in
    if faults (calls w) then (Thrown StorageFailure, w1)
    else
      match effect w1 with
      | Some (a, w2) => (Returned a, w2)
      | None => (Thrown StorageFailure, w1)
      end.

Definition pool_connect : M unit :=
  round_trip PoolConnect (fun w => (tt, w)).

Definition client_release (w : world) : world := log ClientRelease w.

Definition query_BEGIN : M unit :=
  round_trip (ClientQuery BEGIN) (fun w => (tt, with_session (stored w) w)).

Definition query_COMMIT : M unit :=
  round_trip (ClientQuery COMMIT) (fun w => (tt, with_stored (session w) w)).

Definition query_ROLLBACK : M unit :=
  round_trip (ClientQuery ROLLBACK) (fun w => (tt, with_session (stored w) w)).

(** [SELECT id, balance, rollover_required FROM users WHERE id = $1 FOR
    UPDATE]: the row, or no row. *)
Definition query_SELECT_user_FOR_UPDATE (id : string) : M (option user_row) :=
  round_trip (ClientQuery (SELECT_user_FOR_UPDATE id))
    (fun w => (users (session w) !! id, w)).

(** [UPDATE users SET balance = $1, rollover_required = $2 WHERE id = $3].
    The row takes the two values as its [DECIMAL(12,2)] columns keep them,
    under [CHECK (balance >= 0)] and [CHECK (rollover_required >= 0)]. *)
Definition query_UPDATE_user_ledger (newBalance newRollover : Q) (id : string)
    : M unit :=
  constrained_trip (ClientQuery (UPDATE_user_ledger newBalance newRollover id))
    (fun w =>
       match users (session w) !! id with
       | None => Some (tt, w)
       | Some _ =>
           match DECIMAL 12 newBalance, DECIMAL 12 newRollover with
           | Some keptBalance, Some keptRollover =>
               if js_ge keptBalance 0 && js_ge keptRollover 0 then
                 Some (tt, with_session
                             (set_users
                                (alter (settled_row keptBalance keptRollover) id
                                       (users (session w)))
                                (session w)) w)
               else None
           | _, _ => None
           end
       end).

(** [INSERT INTO game_rounds (...) VALUES (...)]. *)
Definition query_INSERT_game_round (row : game_round) : M unit :=
  constrained_trip (ClientQuery (INSERT_game_round row))
    (fun w =>
       match stored_round row with
       | Some kept => Some (tt, with_session (push_game_round kept (session w)) w)
       | None => None
       end).

(** [UPDATE users SET rollover_required = rollover_required + $1,
    first_deposit_made = true WHERE id = $2 AND first_deposit_made = false
    RETURNING ...]: the rows it returns. *)
Definition query_UPDATE_first_deposit (amount : Q) (id : string)
    : M (list user_row) :=
  round_trip (ClientQuery (UPDATE_first_deposit amount id))
    (fun w =>
       match users (session w) !! id with
       | Some u =>
           if first_deposit_made u then ([], w)
           else
             let u' := activated_row amount u in
             ([u'], with_session
                      (set_users (<[id := u']> (users (session w))) (session w)) w)
       | None => ([], w)
       end).

(** [getSetting(key)]: [result.rows[0]?.value || null], asked through the
    pool and so outside any transaction of the client. *)
Definition getSetting (key : string) : M (option string) :=
  round_trip (PoolQuery (SELECT_setting key))
    (fun w =>
       let value := settings (stored w) !! key in
       (if truthy value then value else None, w)).

Definition playScratchCard (random : Q) (userId : string) (betAmount : Q)
    : M play_result :=
  if negb (includes ALLOWED_BETS (toFixed2 betAmount)) then throw InvalidBet
  else
    pool_connect ;;;
    try_catch_finally
      (query_BEGIN ;;;
       userResult <- query_SELECT_user_FOR_UPDATE userId ;;
       match userResult with
       | None => throw NotFound
       | Some user =>
           let currentBalance := balance user in
           if js_lt currentBalance betAmount then throw InsufficientFunds
           else
             rtpString <- getSetting "rtp_percentage" ;;
             let rtpPercentage :=
               match rtpString with
               | Some s => if truthy rtpString then parseFloat s else 95.0
               | None => 95.0
               end in
             let p := calculateScratchPrize random betAmount rtpPercentage in
             let newBalance := currentBalance - betAmount + prizeAmount p in
             let currentRollover := rollover_required user in
             let newRollover := Math_max 0 (currentRollover - betAmount) in
             query_UPDATE_user_ledger newBalance newRollover userId ;;;
             query_INSERT_game_round
               {| user_id := userId; game_type := "scratch_card";
                  bet_amount := betAmount; prize_amount := prizeAmount p;
                  round_multiplier := multiplier p;
                  result_data := rtpPercentage |} ;;;
             query_COMMIT ;;;
             ret {| success := true; prize := prizeAmount p;
                    finalBalance := newBalance;
                    result_multiplier := multiplier p;
                    result_betAmount := betAmount |}
       end)
      (fun error => query_ROLLBACK ;;; throw error)
      client_release.

Definition applyFirstDepositRollover (userId : string) (amount : Q) : M bool :=
  pool_connect ;;;
  try_catch_finally
    (query_BEGIN ;;;
     result <- query_UPDATE_first_deposit amount userId ;;
     query_COMMIT ;;;
     ret (0 <? length result)%nat)
    (fun error => query_ROLLBACK ;;; throw error)
    client_release.

(** A call made on the committed database [d], with no transaction open:
    what it returns or throws, the database it leaves, and its log. *)
Definition call {A} (m : M A) (d : database) : outcome A * database * list event :=
  let '(r, w) := m {| stored := d; session := d; calls := 0; trace := [] |} in
  (r, stored w, trace w).

End Ledger.

(** The server that refuses nothing. *)
Definition reliable : nat -> bool := fun _ => false.

(** ** A reader of decimal literals

    [decimal_of_string] reads texts such as ["95.0"] or ["87.5"]: an
    optional sign, digits, and optionally a point and more digits.  It is the
    instance of [parseFloat] used in the examples. *)

Definition digit_of_ascii (c : ascii) : option Z :=
  let n := Z.of_nat (nat_of_ascii c) in
  if ((48 <=? n) && (n <=? 57))%Z then Some (n - 48)%Z else None.

(** Reads digits; returns the number read so far, the count of digits and
    the rest of the text. *)
Fixpoint read_digits (s : string) (acc : Z) (count : nat) : Z * nat * string :=
  match s with
  | String c rest =>
      match digit_of_ascii c with
      | Some d => read_digits rest (acc * 10 + d)%Z (S count)
      | None => (acc, count, s)
      end
  | EmptyString => (acc, count, s)
  end.

Definition read_unsigned (s : string) : Q :=
  let '(whole, _, rest) := read_digits s 0%Z 0%nat in
  match rest with
  | String "."%char frac =>
      let '(num, digits, _) := read_digits frac 0%Z 0%nat in
      inject_Z whole + inject_Z num / inject_Z (10 ^ Z.of_nat digits)
  | _ => inject_Z whole
  end.

Definition decimal_of_string (s : string) : Q :=
  match s with
  | String "-"%char rest => - read_unsigned rest
  | _ => read_unsigned s
  end.

(** The RTP a round played on [d] works with: the text [getSetting] finds,
    parsed, or 95.0 when it finds none. *)
Definition configured_rtp (parseFloat : string -> Q) (d : database) : Q :=
  let value := settings d !! "rtp_percentage" in
  let rtpString := if truthy value then value else None in
  match rtpString with
  | Some s => if truthy rtpString then parseFloat s else 95.0
  | None => 95.0
  end.

(** ** The Prize Engine as the specification words it *)

(** The bonus is a step function of the stake. *)
Inductive spec_bonusChance (betAmount : Q) : Q -> Prop :=
| bonus_below_5 : betAmount < 5 -> spec_bonusChance betAmount 0
| bonus_5_10 : 5 <= betAmount -> betAmount < 10 -> spec_bonusChance betAmount 0.03
| bonus_10_20 : 10 <= betAmount -> betAmount < 20 -> spec_bonusChance betAmount 0.06
| bonus_20_30 : 20 <= betAmount -> betAmount < 30 -> spec_bonusChance betAmount 0.09
| bonus_30_50 : 30 <= betAmount -> betAmount < 50 -> spec_bonusChance betAmount 0.12
| bonus_from_50 : 50 <= betAmount -> spec_bonusChance betAmount 0.15.

(** The base multiplier by half-open bands of the draw; the last case is
    the "else" of the other four. *)
Inductive spec_baseMultiplier (r t1 t2 t3 t4 : Q) : Q -> Prop :=
| base_10 : r < t1 -> spec_baseMultiplier r t1 t2 t3 t4 10
| base_5 : t1 <= r -> r < t2 -> spec_baseMultiplier r t1 t2 t3 t4 5
| base_2 : t2 <= r -> r < t3 -> spec_baseMultiplier r t1 t2 t3 t4 2
| base_1 : t3 <= r -> r < t4 -> spec_baseMultiplier r t1 t2 t3 t4 1
| base_0 : ~ r < t1 -> ~ (t1 <= r /\ r < t2) -> ~ (t2 <= r /\ r < t3) ->
           ~ (t3 <= r /\ r < t4) -> spec_baseMultiplier r t1 t2 t3 t4 0.

(** [y] is [x] rounded half-up to two decimal places: a whole number of
    cents, the nearest to [x], the upper one when [x] lies halfway. *)
Definition half_up_2dp (x y : Q) : Prop :=
  exists n : Z, y == inject_Z n / 100 /\
                inject_Z n - 0.5 <= x * 100 /\ x * 100 < inject_Z n + 0.5.

(** Steps 2 to 6 of the Prize Engine, for the draw [r]. *)
Definition spec_computePrize (r betAmount rtpPercentage : Q) (res : scratch_prize)
    : Prop :=
  exists bonus base,
    spec_bonusChance betAmount bonus /\
    spec_baseMultiplier r (0.02 + bonus * 0.15) (0.07 + bonus * 0.30)
                          (0.22 + bonus * 0.40) (0.50 + bonus * 0.15) base /\
    multiplier res == base * (rtpPercentage / 95.0) /\
    half_up_2dp (betAmount * (base * (rtpPercentage / 95.0))) (prizeAmount res).

(** ** Double-precision numbers

    JavaScript numbers are IEEE 754 doubles.  A double is read here as the
    rational it denotes; an operation gives the exact result rounded to the
    nearest double, a tie going to the double with an even significand.
    NaN, the infinities and the sign of zero are not represented: a result
    too large for a double is left as it is. *)

(** The exponent [e] with [2 ^ e <= a < 2 ^ (e + 1)], for a positive [a]. *)
Definition binary_exponent (a : Q) : Z :=
  let e := (Z.log2 (Qnum a) - Z.log2 (Zpos (Qden a)))%Z in
  if Qle_bool (Qpower 2 e) a then e else (e - 1)%Z.

(** The integer nearest to [x], a tie going to the even one. *)
Definition round_half_even (x : Q) : Z :=
  let f := Qfloor x in
  match Qcompare (x - inject_Z f) 0.5 with
  | Lt => f
  | Gt => (f + 1)%Z
  | Eq => if Z.even f then f else (f + 1)%Z
  end.

(** The double nearest to [x]: a significand of 53 bits, and of fewer bits
    below [2 ^ -1022], where doubles are spaced [2 ^ -1074] apart. *)
Definition binary64 (x : Q) : Q :=
  if Qeq_bool x 0 then 0
  else
    let a := Qabs x in
    let q := Z.max (binary_exponent a - 52) (-1074) in
    let v := inject_Z (round_half_even (a / Qpower 2 q)) * Qpower 2 q in
    if js_lt x 0 then - v else v.

(** [a + b], [a * b] and [a / b] on doubles. *)
Definition js_add (a b : Q) : Q := binary64 (a + b).
Definition js_mul (a b : Q) : Q := binary64 (a * b).
Definition js_div (a b : Q) : Q := binary64 (a / b).

(** ** The game engine in double precision

    [calculateScratchPrize] once more, with every decimal literal read as
    the double it denotes and every operation rounded as JavaScript rounds
    it.  Whole numbers such as 50, 95.0 and 100 are doubles as they stand;
    comparisons of doubles are comparisons of the numbers they denote. *)

Definition bonusChance_binary64 (betAmount : Q) : Q :=
  if js_ge betAmount 50 then binary64 0.15
  else if js_ge betAmount 30 then binary64 0.12
  else if js_ge betAmount 20 then binary64 0.09
  else if js_ge betAmount 10 then binary64 0.06
  else if js_ge betAmount 5 then binary64 0.03
  else 0.

Definition threshold1_binary64 (bonus : Q) : Q :=
  js_add (binary64 0.02) (js_mul bonus (binary64 0.15)).
Definition threshold2_binary64 (bonus : Q) : Q :=
  js_add (binary64 0.07) (js_mul bonus (binary64 0.30)).
Definition threshold3_binary64 (bonus : Q) : Q :=
  js_add (binary64 0.22) (js_mul bonus (binary64 0.40)).
Definition threshold4_binary64 (bonus : Q) : Q :=
  js_add (binary64 0.50) (js_mul bonus (binary64 0.15)).

Definition drawnMultiplier_binary64 (random bonus : Q) : Q :=
  if js_lt random (threshold1_binary64 bonus) then 10
  else if js_lt random (threshold2_binary64 bonus) then 5
  else if js_lt random (threshold3_binary64 bonus) then 2
  else if js_lt random (threshold4_binary64 bonus) then 1
  else 0.

Definition calculateScratchPrize_binary64 (random betAmount rtpPercentage : Q)
    : scratch_prize :=
  let bonus := bonusChance_binary64 betAmount in
  let multiplier := drawnMultiplier_binary64 random bonus in
  let rtpFactor := js_div rtpPercentage 95.0 in
  let adjustedMultiplier := js_mul multiplier rtpFactor in
  let prizeAmount := js_mul betAmount adjustedMultiplier in
  {| multiplier := adjustedMultiplier;
     prizeAmount := js_div (inject_Z (Math_round (js_mul prizeAmount 100))) 100 |}.

(** ** The Prize Engine of the specification, computed in doubles

    The algorithm of the specification with its decimals read as doubles
    and its products, sums and quotients rounded to doubles. *)

Inductive spec_bonusChance_binary64 (betAmount : Q) : Q -> Prop :=
| bonus64_below_5 : betAmount < 5 -> spec_bonusChance_binary64 betAmount 0
| bonus64_5_10 : 5 <= betAmount -> betAmount < 10 ->
                 spec_bonusChance_binary64 betAmount (binary64 0.03)
| bonus64_10_20 : 10 <= betAmount -> betAmount < 20 ->
                  spec_bonusChance_binary64 betAmount (binary64 0.06)
| bonus64_20_30 : 20 <= betAmount -> betAmount < 30 ->
                  spec_bonusChance_binary64 betAmount (binary64 0.09)
| bonus64_30_50 : 30 <= betAmount -> betAmount < 50 ->
                  spec_bonusChance_binary64 betAmount (binary64 0.12)
| bonus64_from_50 : 50 <= betAmount ->
                    spec_bonusChance_binary64 betAmount (binary64 0.15).

Definition spec_computePrize_binary64 (r betAmount rtpPercentage : Q)
    (res : scratch_prize) : Prop :=
  exists bonus base cents,
    spec_bonusChance_binary64 betAmount bonus /\
    spec_baseMultiplier r
      (js_add (binary64 0.02) (js_mul bonus (binary64 0.15)))
      (js_add (binary64 0.07) (js_mul bonus (binary64 0.30)))
      (js_add (binary64 0.22) (js_mul bonus (binary64 0.40)))
      (js_add (binary64 0.50) (js_mul bonus (binary64 0.15))) base /\
    let adjusted := js_mul base (js_div rtpPercentage 95.0) in
    multiplier res == adjusted /\
    inject_Z cents - 0.5 <= js_mul (js_mul betAmount adjusted) 100 /\
    js_mul (js_mul betAmount adjusted) 100 < inject_Z cents + 0.5 /\
    prizeAmount res == js_div (inject_Z cents) 100.

(** An amount of whole cents, the form a DECIMAL(12,2) column stores
    unchanged. *)
Definition whole_cents (x : Q) : Prop := exists n : Z, x == inject_Z n / 100.

(** [betAmount] equals an allowed stake to the cent. *)
Definition allowed_to_the_cent (betAmount : Q) : Prop :=
  exists a, In a ALLOWED_BETS /\ half_up_2dp betAmount a.

(** The round the INSERT of [playScratchCard] records. *)
Definition round_record (userId : string) (betAmount : Q) (p : scratch_prize)
    (rtpPercentage : Q) : game_round :=
  {| user_id := userId; game_type := "scratch_card"; bet_amount := betAmount;
     prize_amount := prizeAmount p; round_multiplier := multiplier p;
     result_data := rtpPercentage |}.

(** ** Example data *)

Definition alice : user_row :=
  {| balance := 500.00; rollover_required := 500.00; first_deposit_made := true |}.

Definition bob : user_row :=
  {| balance := 10.00; rollover_required := 1.00; first_deposit_made := false |}.

Definition example_db : database :=
  {| users := <["alice" := alice]> (<["bob" := bob]> ∅);
     game_rounds := [];
     settings := <["rtp_percentage" := "95.0"]> ∅ |}.



(** ** The account operations ([updateUserBalance], [updateRollover])

    These throw one error the engine does not know, for an operation that is
    neither ["add"] nor ["subtract"]. *)

Inductive account_error :=
| LedgerError (e : error)
| InvalidOperation.

Inductive account_outcome (A : Type) :=
| Done (a : A)
| Failed (e : account_error).
Arguments Done {A} a.
Arguments Failed {A} e.

Definition MA (A : Type) : Type := world -> account_outcome A * world.

Definition retA {A} (a : A) : MA A := fun w => (Done a, w).

Definition throwA {A} (e : account_error) : MA A := fun w => (Failed e, w).

Definition bindA {A B} (m : MA A) (k : A -> MA B) : MA B :=
  fun w =>
    match m w with
    | (Done a, w1) => k a w1
    | (Failed e, w1) => (Failed e, w1)
    end.

(** A ledger step run inside an account operation. *)
Definition lift {A} (m : M A) : MA A :=
  fun w =>
    match m w with
    | (Returned a, w1) => (Done a, w1)
    | (Thrown e, w1) => (Failed (LedgerError e), w1)
    end.

Notation "x <~ m ;; k" := (bindA m (fun x => k))
  (at level 100, m at next level, right associativity).
Notation "m ;;~ k" := (bindA m (fun _ => k))
  (at level 100, right associativity).

Definition try_catch_finallyA {A} (body : MA A) (handler : account_error -> MA A)
    (final : world -> world) : MA A :=
  fun w =>
    let '(r, w1) :=
      match body w with
      | (Failed e, w1) => handler e w1
      | (Done a, w1) => (Done a, w1)
      end in
    (r, final w1).

Definition set_settings (s : gmap string string) (d : database) : database :=
  {| users := users d; game_rounds := game_rounds d; settings := s |}.

(** What [SET balance = $1] and [SET rollover_required = $1] make of a row. *)
Definition with_balance (newBalance : Q) (u : user_row) : user_row :=
  {| balance := newBalance; rollover_required := rollover_required u;
     first_deposit_made := first_deposit_made u |}.

Definition with_rollover (newRollover : Q) (u : user_row) : user_row :=
  {| balance := balance u; rollover_required := newRollover;
     first_deposit_made := first_deposit_made u |}.

Section Account.

Variable faults : nat -> bool.

(** A round trip for a statement that [statement] does not name: counted,
    and refused when the oracle says so, but absent from the log. *)
Definition other_trip {A} (effect : world -> A * world) : M A :=
  fun w =>
    let w1 := {| stored := stored w; session := session w;
                 calls := S (calls w); trace := trace w |} in
    if faults (calls w) then (Thrown StorageFailure, w1)
    else let '(a, w2) := effect w1 in (Returned a, w2).

(** [SELECT balance FROM users WHERE id = $1 FOR UPDATE]. *)
Definition query_SELECT_balance_FOR_UPDATE (id : string) : M (option Q) :=
  other_trip
    (fun w =>
       (match users (session w) !! id with
        | Some u => Some (balance u)
        | None => None
        end, w)).

(** [SELECT rollover_required FROM users WHERE id = $1 FOR UPDATE]. *)
Definition query_SELECT_rollover_FOR_UPDATE (id : string) : M (option Q) :=
  other_trip
    (fun w =>
       (match users (session w) !! id with
        | Some u => Some (rollover_required u)
        | None => None
        end, w)).

(** [UPDATE users SET balance = $1 WHERE id = $2]. *)
Definition query_UPDATE_balance (newBalance : Q) (id : string) : M unit :=
  other_trip
    (fun w =>
       (tt, with_session
              (set_users (alter (with_balance newBalance) id (users (session w)))
                 (session w)) w)).

(** [UPDATE users SET rollover_required = $1 WHERE id = $2]. *)
Definition query_UPDATE_rollover (newRollover : Q) (id : string) : M unit :=
  other_trip
    (fun w =>
       (tt, with_session
              (set_users (alter (with_rollover newRollover) id (users (session w)))
                 (session w)) w)).

Definition updateUserBalance (userId : string) (amount : Q) (operation : string)
    : MA Q :=
  lift (pool_connect faults) ;;~
  try_catch_finallyA
    (lift (query_BEGIN faults) ;;~
     result <~ lift (query_SELECT_balance_FOR_UPDATE userId) ;;
     match result with
     | None => throwA (LedgerError NotFound)
     | Some currentBalance =>
         newBalance <~
           (if String.eqb operation "add" then retA (currentBalance + amount)
            else if String.eqb operation "subtract" then
              let newBalance := currentBalance - amount in
              if js_lt newBalance 0 then throwA (LedgerError InsufficientFunds)
              else retA newBalance
            else throwA InvalidOperation) ;;
         lift (query_UPDATE_balance newBalance userId) ;;~
         lift (query_COMMIT faults) ;;~
         retA newBalance
     end)
    (fun error => lift (query_ROLLBACK faults) ;;~ throwA error)
    client_release.

Definition updateRollover (userId : string) (amount : Q) (operation : string)
    : MA Q :=
  lift (pool_connect faults) ;;~
  try_catch_finallyA
    (lift (query_BEGIN faults) ;;~
     result <~ lift (query_SELECT_rollover_FOR_UPDATE userId) ;;
     match result with
     | None => throwA (LedgerError NotFound)
     | Some currentRollover =>
         newRollover <~
           (if String.eqb operation "add" then retA (currentRollover + amount)
            else if String.eqb operation "subtract" then
              retA (Math_max 0 (currentRollover - amount))
            else throwA InvalidOperation) ;;
         lift (query_UPDATE_rollover newRollover userId) ;;~
         lift (query_COMMIT faults) ;;~
         retA newRollover
     end)
    (fun error => lift (query_ROLLBACK faults) ;;~ throwA error)
    client_release.

(** [setSetting(key, value)]: an upsert of the row of [key], sent through
    the pool and so committed at once.  The description column is not part
    of the model. *)
Definition setSetting (key value : string) : M unit :=
  other_trip
    (fun w =>
       (tt, with_stored (set_settings (<[key := value]> (settings (stored w)))
                           (stored w)) w)).

(** The two statements by which both confirmation paths of a paid deposit
    (the status check and the webhook) credit it. *)
Definition creditPaidDeposit (userId : string) (amount : Q) : MA bool :=
  updateUserBalance userId amount "add" ;;~
  lift (applyFirstDepositRollover faults userId amount).

End Account.

(** A call of an account operation on the committed database [d]. *)
Definition callA {A} (m : MA A) (d : database)
    : account_outcome A * database * list event :=
  let '(r, w) := m {| stored := d; session := d; calls := 0; trace := [] |} in
  (r, stored w, trace w).

(** ** Requests served one after another *)

(** Every row holds a non-negative balance and a non-negative rollover. *)
Definition ledger_ok (d : database) : Prop :=
  forall id u, users d !! id = Some u -> 0 <= balance u /\ 0 <= rollover_required u.

(** A call of one of the four operations that write the ledger, with the
    behaviour of the server during it. *)
Inductive request :=
| PlayScratchCard (faults : nat -> bool) (random : Q) (userId : string)
    (betAmount : Q)
| UpdateUserBalance (faults : nat -> bool) (userId : string) (amount : Q)
    (operation : string)
| UpdateRollover (faults : nat -> bool) (userId : string) (amount : Q)
    (operation : string)
| ApplyFirstDepositRollover (faults : nat -> bool) (userId : string) (amount : Q).

(** The database a request leaves, whether it returns or throws. *)
Definition serve (parseFloat : string -> Q) (r : request) (d : database) : database :=
  match r with
  | PlayScratchCard faults random userId betAmount =>
      (call (playScratchCard faults parseFloat random userId betAmount) d).1.2
  | UpdateUserBalance faults userId amount operation =>
      (callA (updateUserBalance faults userId amount operation) d).1.2
  | UpdateRollover faults userId amount operation =>
      (callA (updateRollover faults userId amount operation) d).1.2
  | ApplyFirstDepositRollover faults userId amount =>
      (call (applyFirstDepositRollover faults userId amount) d).1.2
  end.

Definition serve_all (parseFloat : string -> Q) (rs : list request) (d : database)
    : database :=
  fold_left (fun d r => serve parseFloat r d) rs d.

(** A request that adds to a balance or to a rollover adds a non-negative
    amount. *)
Definition adds_no_debt (r : request) : Prop :=
  match r with
  | PlayScratchCard _ _ _ _ => True
  | UpdateUserBalance _ _ amount operation => operation = "add" -> 0 <= amount
  | UpdateRollover _ _ amount operation => operation = "add" -> 0 <= amount
  | ApplyFirstDepositRollover _ _ amount => 0 <= amount
  end.

(** The rounds one user asks for, one after another, each with its draw and
    the behaviour of the server during it: the results of those that return,
    in order, and the database left. *)
Fixpoint playRounds (parseFloat : string -> Q) (userId : string)
    (rounds : list ((nat -> bool) * Q * Q)) (d : database)
    : list play_result * database :=
  match rounds with
  | [] => ([], d)
  | (faults, random, betAmount) :: rest =>
      let out := call (playScratchCard faults parseFloat random userId betAmount) d in
      let '(results, d') := playRounds parseFloat userId rest out.1.2 in
      (match out.1.1 with
       | Returned r => r :: results
       | Thrown _ => results
       end, d')
  end.

Definition Qsum (l : list Q) : Q := fold_right Qplus 0 l.

(** ** The HTTP layer *)

(** [hay.includes(needle)] on texts.  Texts are sequences of UTF-8 bytes;
    one well-formed text occurs in another as bytes exactly when it does as
    characters. *)
Fixpoint str_includes (needle hay : string) : bool :=
  String.prefix needle hay ||
  match hay with
  | EmptyString => false
  | String _ rest => str_includes needle rest
  end.

(** The JSON bodies of the responses modelled. *)
Inductive json_body :=
| ErrorJson (error_text : string)
| ErrorDetailsJson (error_text details : string)
| InvalidBetJson (error_text : string) (allowed_bets : list Q)
| PlayJson (result : play_result)
| RtpJson (rtp_percentage : Q)
| OkJson
| StatusJson (reported : string).

Record response := { status : nat; body : json_body }.

(** The message of what an operation throws; [driver] is the message of
    whatever the database driver threw. *)
Definition message_of (driver : string) (e : account_error) : string :=
  match e with
  | LedgerError InvalidBet =>
      "Valor de aposta inválido. Escolha um dos valores permitidos."
  | LedgerError NotFound => "Usuário não encontrado"
  | LedgerError InsufficientFunds => "Saldo insuficiente"
  | LedgerError StorageFailure => driver
  | InvalidOperation => "Operação inválida"
  end.

Definition errorHandler (message : string) : response :=
  if str_includes "Token" message then
    {| status := 401; body := ErrorJson message |}
  else if str_includes "não encontrado" message then
    {| status := 404; body := ErrorJson message |}
  else if str_includes "já existe" message || str_includes "inválido" message then
    {| status := 400; body := ErrorJson message |}
  else
    {| status := 500; body := ErrorDetailsJson "Erro interno do servidor" message |}.

(** [!x] for a number. *)
Definition js_not (x : Q) : bool := Qeq_bool x 0.

Section Routes.

Variable faults : nat -> bool.
Variable parseFloat : string -> Q.

(** [x.toString()] for a number. *)
Variable toString : Q -> string.

(** The message of what the database driver throws. *)
Variable driver : string.

(** [POST /api/game/scratch], once the request is authenticated as
    [userId], for a [betAmount] that is a JSON number ([parseFloat] of a
    number is the number). *)
Definition post_game_scratch (random : Q) (userId : string) (betAmount : Q)
    (d : database) : response * database :=
  let betValue := betAmount in
  if js_not betAmount || negb (includes ALLOWED_BETS (toFixed2 betValue)) then
    ({| status := 400;
        body := InvalidBetJson "Valor de aposta inválido" ALLOWED_BETS |}, d)
  else
    match call (playScratchCard faults parseFloat random userId betValue) d with
    | (Returned result, d', _) => ({| status := 200; body := PlayJson result |}, d')
    | (Thrown error, d', _) =>
        (errorHandler (message_of driver (LedgerError error)), d')
    end.

(** [POST /api/admin/rtp], once the request is authenticated as an
    administrator, for an [rtp_percentage] that is a JSON number. *)
Definition post_admin_rtp (rtp_percentage : Q) (d : database)
    : response * database :=
  if js_not rtp_percentage || js_lt rtp_percentage 50 || js_lt 99 rtp_percentage then
    ({| status := 400; body := ErrorJson "RTP deve estar entre 50% e 99%" |}, d)
  else
    match call (setSetting faults "rtp_percentage" (toString rtp_percentage)) d with
    | (Returned _, d', _) =>
        ({| status := 200; body := RtpJson rtp_percentage |}, d')
    | (Thrown error, d', _) =>
        (errorHandler (message_of driver (LedgerError error)), d')
    end.

End Routes.

(** ** The payment gateway client *)

Definition is_digit (c : ascii) : bool :=
  let n := nat_of_ascii c in ((48 <=? n) && (n <=? 57))%nat.

(** [s.replace(/\D/g, '')]: the digits of [s], in order. *)
Fixpoint digits_only (s : string) : string :=
  match s with
  | EmptyString => EmptyString
  | String c rest =>
      if is_digit c then String c (digits_only rest) else digits_only rest
  end.

Section PixKey.

(** [s.trim()] and [s.toLowerCase()]. *)
Variable trim : string -> string.
Variable toLowerCase : string -> string.

Definition formatPixKey (pixKey pixKeyType : string) : string :=
  if String.eqb pixKey "" then ""
  else if String.eqb pixKeyType "cpf" || String.eqb pixKeyType "cnpj"
          || String.eqb pixKeyType "phone" then digits_only pixKey
  else if String.eqb pixKeyType "email" then toLowerCase (trim pixKey)
  else if String.eqb pixKeyType "random" then trim pixKey
  else pixKey.

End PixKey.

(** [a || b] on header values. *)
Definition js_or (a b : option string) : option string :=
  if truthy a then a else b.

(** [isValidWebhookSource(req)], from the headers of the request and the
    value of [BULLSPAY_API_KEY] in the environment, if it has one.  An unset
    variable reads as [undefined], which the template literal prints as
    ["undefined"]. *)
Definition isValidWebhookSource (expectedKey : option string)
    (headers : gmap string string) : bool :=
  let apiKey := js_or (headers !! "x-api-key") (headers !! "authorization") in
  match apiKey with
  | Some key =>
      if negb (truthy apiKey) then false
      else
        match expectedKey with
        | Some expected => String.eqb key expected
        | None => false
        end
        || String.eqb key
             ("Bearer " ++ match expectedKey with
                           | Some expected => expected
                           | None => "undefined"
                           end)
  | None => false
  end.

(** ** The gateway webhook *)

(** A row of [transactions], restricted to the columns the webhook reads
    or writes. *)
Record transaction := {
  tx_id : string;
  tx_user_id : string;
  tx_type : string;
  tx_amount : Q;
  tx_status : string;
  tx_gateway_id : option string
}.

(** The ledger together with the table of transactions. *)
Record site := {
  ledger : database;
  transactions : list transaction
}.

(** The [data] object of a webhook body. *)
Record webhook_data := {
  unic_id : string;
  data_status : string
}.

Definition has_gateway_id (id : string) (t : transaction) : bool :=
  match tx_gateway_id t with
  | Some g => String.eqb g id
  | None => false
  end.

(** [UPDATE transactions SET status = $1, ... WHERE id = $3]. *)
Definition set_status (newStatus id : string) (t : transaction) : transaction :=
  if String.eqb (tx_id t) id then
    {| tx_id := tx_id t; tx_user_id := tx_user_id t; tx_type := tx_type t;
       tx_amount := tx_amount t; tx_status := newStatus;
       tx_gateway_id := tx_gateway_id t |}
  else t.

(** [['failed', 'canceled'].includes(status)]. *)
Definition failed_or_canceled (st : string) : bool :=
  String.eqb st "failed" || String.eqb st "canceled".

(** The answer for whatever a ledger operation threw inside the handler:
    [res.status(500).json({ error: error.message })]. *)
Definition answer_500 (driver : string) (e : account_error) : response :=
  {| status := 500; body := ErrorJson (message_of driver e) |}.

(** [POST /webhook/bullspay].  [data] is [req.body.data], if the body has
    one.  The two statements on [transactions] go through the pool and are
    round trips 0 and 1; the ledger operations that follow use the round
    trips from 2 on. *)
Definition post_webhook_bullspay (faults : nat -> bool) (driver : string)
    (expectedKey : option string) (headers : gmap string string)
    (data : option webhook_data) (s : site) : response * site :=
  let ok := {| status := 200; body := OkJson |} in
  if negb (isValidWebhookSource expectedKey headers) then
    ({| status := 401; body := ErrorJson "Unauthorized - Invalid API key" |}, s)
  else
    match data with
    | None => (ok, s)
    | Some data =>
        if String.eqb (unic_id data) "" then (ok, s)
        else if faults 0%nat then (answer_500 driver (LedgerError StorageFailure), s)
        else
          match List.filter (has_gateway_id (unic_id data)) (transactions s) with
          | [] => (ok, s)
          | transaction :: _ =>
              let newStatus := data_status data in
              if faults 1%nat then
                (answer_500 driver (LedgerError StorageFailure), s)
              else
                let txs := map (set_status newStatus (tx_id transaction))
                             (transactions s) in
                let later := fun n => faults (2 + n)%nat in
                if String.eqb (tx_type transaction) "deposit"
                   && String.eqb newStatus "paid"
                   && negb (String.eqb (tx_status transaction) "paid") then
                  match callA (creditPaidDeposit later (tx_user_id transaction)
                                 (tx_amount transaction)) (ledger s) with
                  | (Done _, d', _) => (ok, {| ledger := d'; transactions := txs |})
                  | (Failed e, d', _) =>
                      (answer_500 driver e, {| ledger := d'; transactions := txs |})
                  end
                else if String.eqb (tx_type transaction) "withdrawal"
                        && failed_or_canceled newStatus
                        && negb (failed_or_canceled (tx_status transaction)) then
                  match callA (updateUserBalance later (tx_user_id transaction)
                                 (tx_amount transaction) "add") (ledger s) with
                  | (Done _, d', _) => (ok, {| ledger := d'; transactions := txs |})
                  | (Failed e, d', _) =>
                      (answer_500 driver e, {| ledger := d'; transactions := txs |})
                  end
                else (ok, {| ledger := ledger s; transactions := txs |})
          end
    end.

(** Example data: a pending deposit of bob and an approved withdrawal of
    alice. *)
Definition example_site : site :=
  {| ledger := example_db;
     transactions :=
       [{| tx_id := "t1"; tx_user_id := "bob"; tx_type := "deposit";
           tx_amount := 500.00; tx_status := "pending";
           tx_gateway_id := Some "g1" |};
        {| tx_id := "t2"; tx_user_id := "alice"; tx_type := "withdrawal";
           tx_amount := 100.00; tx_status := "approved";
           tx_gateway_id := Some "g2" |}] |}.

Definition gateway_headers : gmap string string := <["x-api-key" := "secret"]> ∅.

(** ** The deposit status check *)

(** What [BullsPay.listTransactions] gives back: it throws, or it lists
    transactions, of which the handler reads the status of the first. *)
Inductive gateway_answer :=
| GatewayThrows (message : string)
| GatewayLists (first_status : option string).

Definition is_transaction_of (transactionId userId : string) (t : transaction) : bool :=
  String.eqb (tx_id t) transactionId && String.eqb (tx_user_id t) userId.

(** [GET /api/deposit/check/:transactionId], once the request is
    authenticated as [userId].  [expired] says whether the transaction has an
    expiry time and the clock is past it; [gateway] is what the gateway
    answers when asked.  The statements on [transactions] are round trips 0
    and 1; the ledger operations use the round trips from 2 on.  The body of
    a successful answer is reduced to the status it reports. *)
Definition get_deposit_check (faults : nat -> bool) (driver : string)
    (expired : bool) (gateway : gateway_answer) (userId transactionId : string)
    (s : site) : response * site :=
  if faults 0%nat then (errorHandler driver, s)
  else
    match List.filter (is_transaction_of transactionId userId) (transactions s) with
    | [] => ({| status := 404; body := ErrorJson "Transação não encontrada" |}, s)
    | transaction :: _ =>
        if expired && String.eqb (tx_status transaction) "pending" then
          if faults 1%nat then (errorHandler driver, s)
          else
            ({| status := 200; body := StatusJson "expired" |},
             {| ledger := ledger s;
                transactions := map (set_status "expired" (tx_id transaction))
                                  (transactions s) |})
        else if String.eqb (tx_status transaction) "paid"
                || String.eqb (tx_status transaction) "expired" then
          ({| status := 200; body := StatusJson (tx_status transaction) |}, s)
        else
          match gateway with
          | GatewayThrows message => (errorHandler message, s)
          | GatewayLists None =>
              ({| status := 200; body := StatusJson (tx_status transaction) |}, s)
          | GatewayLists (Some gatewayStatus) =>
              if String.eqb gatewayStatus (tx_status transaction) then
                ({| status := 200; body := StatusJson (tx_status transaction) |}, s)
              else if faults 1%nat then (errorHandler driver, s)
              else
                let txs := map (set_status gatewayStatus (tx_id transaction))
                             (transactions s) in
                let later := fun n => faults (2 + n)%nat in
                if String.eqb gatewayStatus "paid" then
                  match callA (creditPaidDeposit later userId (tx_amount transaction))
                          (ledger s) with
                  | (Done _, d', _) =>
                      ({| status := 200; body := StatusJson gatewayStatus |},
                       {| ledger := d'; transactions := txs |})
                  | (Failed e, d', _) =>
                      (errorHandler (message_of driver e),
                       {| ledger := d'; transactions := txs |})
                  end
                else
                  ({| status := 200; body := StatusJson gatewayStatus |},
                   {| ledger := ledger s; transactions := txs |})
          end
    end.

(** The two ways a payment comes to be known: the gateway calls the
    webhook, or the user's page asks for the status and the gateway says
    paid. *)
Inductive confirmation := ByWebhook | ByStatusCheck.

(** Confirmations of one paid deposit, handled one after another by a
    server that refuses nothing. *)
Fixpoint confirm (expectedKey : option string) (headers : gmap string string)
    (gatewayId userId transactionId : string) (cs : list confirmation) (s : site)
    : site :=
  match cs with
  | [] => s
  | ByWebhook :: rest =>
      confirm expectedKey headers gatewayId userId transactionId rest
        (post_webhook_bullspay reliable "" expectedKey headers
           (Some {| unic_id := gatewayId; data_status := "paid" |}) s).2
  | ByStatusCheck :: rest =>
      confirm expectedKey headers gatewayId userId transactionId rest
        (get_deposit_check reliable "" false (GatewayLists (Some "paid"))
           userId transactionId s).2
  end.

(** ** The fraud check *)

(** What the queries of [checkUserFraud] find about a user: the accounts
    with the user's CPF, the games of the last seven days and those among
    them with a prize, whether a withdrawal followed a paid deposit within
    five minutes (and whether the driver hands the interval over as a number,
    without which formatting it throws), the deposits failed in the last 24
    hours, the games played between 2 and 5 in the morning, the games of the
    last day staking more than half the balance, and the withdrawals failed
    or canceled in the last 24 hours. *)
Record fraud_facts := {
  same_cpf_accounts : nat;
  total_games : nat;
  wins : nat;
  quick_withdrawal : bool;
  minutes_diff_is_number : bool;
  failed_deposits : nat;
  night_games : nat;
  high_bets : nat;
  refused_withdrawals : nat
}.

(** An alert: its type and its severity. *)
Definition alert : Type := string * string.

(** A computation that makes round trips, numbered from [n] on, and throws
    ([None]) when one is refused or when the code itself throws. *)
Definition F (A : Type) : Type := nat -> option (A * nat).

Definition retF {A} (a : A) : F A := fun n => Some (a, n).

Definition throwF {A} : F A := fun _ => None.

Definition bindF {A B} (m : F A) (k : A -> F B) : F B :=
  fun n =>
    match m n with
    | Some (a, n1) => k a n1
    | None => None
    end.

Notation "x <: m ;; k" := (bindF m (fun x => k))
  (at level 100, m at next level, right associativity).

Section Fraud.

Variable faults : nat -> bool.

(** A query sent through the pool. *)
Definition pool_query : F unit :=
  fun n => if faults n then None else Some (tt, S n).

(** [createFraudAlert]: one INSERT; what it catches it throws again. *)
Definition createFraudAlert : F unit := pool_query.

(** One heuristic that records its alert in [fraud_alerts]. *)
Definition recorded_heuristic (fires : bool) (points : nat) (a : alert)
    (acc : list alert * nat) : F (list alert * nat) :=
  _ <: pool_query ;;
  if fires then
    _ <: createFraudAlert ;;
    retF (acc.1 ++ [a], (acc.2 + points)%nat)
  else retF acc.

(** One heuristic that only reports its alert. *)
Definition reported_heuristic (fires : bool) (points : nat) (a : alert)
    (acc : list alert * nat) : F (list alert * nat) :=
  _ <: pool_query ;;
  retF (if fires then (acc.1 ++ [a], (acc.2 + points)%nat) else acc).

(** [checkUserFraud(userId)], from the balance of the user, if there is
    such a user, and from what the queries find.  What is thrown on the way
    is caught: the result is then no alert and a score of zero. *)
Definition checkUserFraud (userBalance : option Q) (f : fraud_facts)
    : list alert * nat :=
  let body : F (list alert * nat) :=
    _ <: pool_query ;;
    match userBalance with
    | None => retF ([], 0%nat)
    | Some balance =>
        acc <: recorded_heuristic (1 <? same_cpf_accounts f)%nat 30
                 ("multiple_accounts_same_cpf", "high") ([], 0%nat) ;;
        acc <: recorded_heuristic
                 ((20 <? total_games f)%nat
                  && js_lt 0.85 (inject_Z (Z.of_nat (wins f))
                                 / inject_Z (Z.of_nat (total_games f))))
                 50 ("suspicious_win_rate", "critical") acc ;;
        acc <: (_ <: pool_query ;;
                if quick_withdrawal f then
                  if minutes_diff_is_number f then
                    _ <: createFraudAlert ;;
                    retF (acc.1 ++ [("quick_withdrawal", "high")], (acc.2 + 40)%nat)
                  else throwF
                else retF acc) ;;
        acc <: recorded_heuristic (5 <? failed_deposits f)%nat 20
                 ("multiple_failed_deposits", "medium") acc ;;
        acc <: reported_heuristic (50 <? night_games f)%nat 15
                 ("suspicious_hours", "low") acc ;;
        acc <: reported_heuristic ((0 <? high_bets f)%nat && js_lt balance 100) 25
                 ("high_stakes_low_balance", "medium") acc ;;
        reported_heuristic (3 <? refused_withdrawals f)%nat 20
          ("rollover_bypass_attempts", "medium") acc
    end in
  match body 0%nat with
  | Some (result, _) => result
  | None => ([], 0%nat)
  end.

End Fraud.

(** The score stays within 50 points per alert, and below [bound]. *)
Definition score_within (bound : nat) (acc : list alert * nat) : Prop :=
  (acc.2 <= 50 * length acc.1)%nat /\ (acc.2 <= bound)%nat.

Definition keeps (bound : nat) (m : F (list alert * nat)) : Prop :=
  forall n, match m n with
            | Some (acc, _) => score_within bound acc
            | None => True
            end.

(** ** Tactics for running the ledger operations *)

Ltac run_ledger :=
  cbv beta iota zeta delta
    [call playScratchCard applyFirstDepositRollover bind ret throw
     try_catch_finally round_trip constrained_trip pool_connect client_release
     query_BEGIN query_COMMIT query_ROLLBACK query_SELECT_user_FOR_UPDATE
     query_UPDATE_user_ledger query_INSERT_game_round
     query_UPDATE_first_deposit getSetting log with_session with_stored
     stored session calls trace];
  cbn [app].

(** Splits on the next thing the run depends on: a refusal of the server,
    the row found, the balance test. *)
Ltac split_run :=
  match goal with
  | |- context [if ?f ?n then _ else _] =>
      match type of f with nat -> bool => destruct (f n) eqn:? end
  | |- context [match users ?d !! ?k with _ => _ end] =>
      destruct (users d !! k) eqn:?
  | |- context [if js_lt ?a ?b then _ else _] => destruct (js_lt a b) eqn:?
  | |- context [if first_deposit_made ?u then _ else _] =>
      destruct (first_deposit_made u) eqn:?
  | |- context [match DECIMAL ?p ?x with _ => _ end] =>
      destruct (DECIMAL p x) eqn:?
  | |- context [match stored_round ?g with _ => _ end] =>
      destruct (stored_round g) eqn:?
  | |- context [if js_ge ?a ?b && js_ge ?c ?e then _ else _] =>
      destruct (js_ge a b) eqn:?; destruct (js_ge c e) eqn:?; cbn [andb]
  end.

Ltac settle_run :=
  run_ledger; repeat (split_run; run_ledger).

Ltac run_account :=
  cbv beta iota zeta delta
    [call callA playScratchCard applyFirstDepositRollover updateUserBalance
     updateRollover creditPaidDeposit setSetting bind ret throw bindA retA throwA
     lift try_catch_finally try_catch_finallyA round_trip constrained_trip
     other_trip pool_connect client_release query_BEGIN query_COMMIT query_ROLLBACK
     query_SELECT_user_FOR_UPDATE query_UPDATE_user_ledger
     query_INSERT_game_round query_UPDATE_first_deposit
     query_SELECT_balance_FOR_UPDATE query_SELECT_rollover_FOR_UPDATE
     query_UPDATE_balance query_UPDATE_rollover getSetting log with_session
     with_stored stored session calls trace];
  cbn [app].

Ltac split_account :=
  match goal with
  | |- context [if ?f ?n then _ else _] =>
      match type of f with nat -> bool => destruct (f n) eqn:? end
  | |- context [match users ?d !! ?k with _ => _ end] =>
      destruct (users d !! k) eqn:?
  | |- context [if js_lt ?a ?b then _ else _] => destruct (js_lt a b) eqn:?
  | |- context [if first_deposit_made ?u then _ else _] =>
      destruct (first_deposit_made u) eqn:?
  | |- context [if String.eqb ?a ?b then _ else _] =>
      destruct (String.eqb_spec a b)
  | |- context [match DECIMAL ?p ?x with _ => _ end] =>
      destruct (DECIMAL p x) eqn:?
  | |- context [match stored_round ?g with _ => _ end] =>
      destruct (stored_round g) eqn:?
  | |- context [if js_ge ?a ?b && js_ge ?c ?e then _ else _] =>
      destruct (js_ge a b) eqn:?; destruct (js_ge c e) eqn:?; cbn [andb]
  end.

Ltac settle_account :=
  run_account; repeat (split_account; run_account).

(** * Properties *)

(** ** Comparisons and rounding *)

Lemma js_lt_spec a b : reflect (a < b) (js_lt a b).
Proof.
  unfold js_lt. destruct (Qle_bool b a) eqn:E; constructor.
  - apply Qle_bool_iff in E. lra.
  - apply Qnot_le_lt. rewrite <- Qle_bool_iff. congruence.
Qed.

Lemma js_ge_spec a b : reflect (b <= a) (js_ge a b).
Proof.
  unfold js_ge. destruct (Qle_bool b a) eqn:E; constructor.
  - now apply Qle_bool_iff.
  - rewrite <- Qle_bool_iff. congruence.
Qed.

Lemma inject_Z_succ n : inject_Z (n + 1) == inject_Z n + 1.
Proof. rewrite inject_Z_plus. reflexivity. Qed.

Lemma Qfloor_bounds x : inject_Z (Qfloor x) <= x /\ x < inject_Z (Qfloor x) + 1.
Proof.
  split; [apply Qfloor_le |].
  rewrite <- inject_Z_succ. apply Qlt_floor.
Qed.

Lemma Qfloor_unique x n : inject_Z n <= x -> x < inject_Z n + 1 -> Qfloor x = n.
Proof.
  intros Hlo Hhi. destruct (Qfloor_bounds x) as [Flo Fhi].
  assert (inject_Z n < inject_Z (Qfloor x + 1)) as H1
    by (rewrite inject_Z_succ; lra).
  assert (inject_Z (Qfloor x) < inject_Z (n + 1)) as H2
    by (rewrite inject_Z_succ; lra).
  rewrite <- Zlt_Qlt in H1, H2. lia.
Qed.

Lemma Math_round_bounds x :
  inject_Z (Math_round x) - 0.5 <= x /\ x < inject_Z (Math_round x) + 0.5.
Proof.
  unfold Math_round. destruct (Qfloor_bounds (x + 0.5)). split; lra.
Qed.

Lemma half_up_2dp_unique x y1 y2 :
  half_up_2dp x y1 -> half_up_2dp x y2 -> y1 == y2.
Proof.
  intros (n & Hy1 & Hn1 & Hn2) (m & Hy2 & Hm1 & Hm2).
  assert (n = m) as ->.
  { rewrite <- (Qfloor_unique (x * 100 + 0.5) n) by lra.
    apply Qfloor_unique; lra. }
  now rewrite Hy1, Hy2.
Qed.

Lemma half_up_2dp_Math_round x :
  half_up_2dp x (inject_Z (Math_round (x * 100)) / 100).
Proof.
  exists (Math_round (x * 100)). split; [reflexivity |].
  apply Math_round_bounds.
Qed.

Lemma Math_max_Qmax a b : Math_max a b == Qmax a b.
Proof.
  unfold Math_max. destruct (Qle_bool a b) eqn:E.
  - apply Qle_bool_iff in E. now rewrite Q.max_r.
  - assert (b <= a).
    { apply Qlt_le_weak, Qnot_le_lt. rewrite <- Qle_bool_iff. congruence. }
    now rewrite Q.max_l.
Qed.

(** ** The Prize Engine *)

Lemma bonusChance_spec betAmount :
  spec_bonusChance betAmount (bonusChance betAmount).
Proof.
  unfold bonusChance.
  repeat match goal with
         | |- context [js_ge ?a ?b] => destruct (js_ge_spec a b)
         end.
  - now apply bonus_from_50.
  - apply bonus_30_50; lra.
  - apply bonus_20_30; lra.
  - apply bonus_10_20; lra.
  - apply bonus_5_10; lra.
  - apply bonus_below_5; lra.
Qed.

Lemma spec_bonusChance_functional betAmount x y :
  spec_bonusChance betAmount x -> spec_bonusChance betAmount y -> x = y.
Proof. intros Hx Hy. destruct Hx; destruct Hy; solve [reflexivity | lra]. Qed.

Lemma spec_bonusChance_range betAmount x :
  spec_bonusChance betAmount x -> 0 <= x /\ x <= 1.
Proof. intros Hx. destruct Hx; lra. Qed.

Lemma drawnMultiplier_spec r bonus :
  spec_baseMultiplier r (0.02 + bonus * 0.15) (0.07 + bonus * 0.30)
    (0.22 + bonus * 0.40) (0.50 + bonus * 0.15) (drawnMultiplier r bonus).
Proof.
  unfold drawnMultiplier, threshold1, threshold2, threshold3, threshold4.
  repeat match goal with
         | |- context [js_lt ?a ?b] => destruct (js_lt_spec a b)
         end.
  - now apply base_10.
  - apply base_5; lra.
  - apply base_2; lra.
  - apply base_1; lra.
  - apply base_0; lra.
Qed.

(** The bands do not overlap once the thresholds ascend. *)
Lemma spec_baseMultiplier_functional r t1 t2 t3 t4 x y :
  t1 <= t2 -> t2 <= t3 -> t3 <= t4 ->
  spec_baseMultiplier r t1 t2 t3 t4 x -> spec_baseMultiplier r t1 t2 t3 t4 y ->
  x = y.
Proof.
  intros H12 H23 H34 Hx Hy.
  destruct Hx; destruct Hy; solve [reflexivity | lra].
Qed.

Lemma drawnMultiplier_values r bonus :
  In (drawnMultiplier r bonus) [0; 1; 2; 5; 10].
Proof.
  unfold drawnMultiplier.
  repeat match goal with
         | |- context [js_lt ?a ?b] => destruct (js_lt a b)
         end; simpl; auto 10.
Qed.

(** The boundary cases of the draw at the minimum stake and RTP 95.0, and
    a stake of 10.00 in the band of multiplier 1. *)
Example draw_just_below_first_threshold :
  multiplier (calculateScratchPrize 0.0199 0.50 95.0) == 10 /\
  prizeAmount (calculateScratchPrize 0.0199 0.50 95.0) == 5.00.
Proof. split; reflexivity. Qed.

Example draw_at_last_threshold :
  multiplier (calculateScratchPrize 0.50 0.50 95.0) == 0 /\
  prizeAmount (calculateScratchPrize 0.50 0.50 95.0) == 0.
Proof. split; reflexivity. Qed.

Example draw_in_band_of_one :
  multiplier (calculateScratchPrize 0.3 10.00 95.0) == 1 /\
  prizeAmount (calculateScratchPrize 0.3 10.00 95.0) == 10.00.
Proof. split; reflexivity. Qed.

Example prize_rounds_half_up :
  prizeAmount (calculateScratchPrize 0.3 0.50 96.9) == 0.51 /\
  prizeAmount (calculateScratchPrize 0.3 0.50 95.9) == 0.50 /\
  prizeAmount (calculateScratchPrize 0.3 0.50 95.95) == 0.51.
Proof. repeat split; reflexivity. Qed.

(** Computing with exact numbers, [calculateScratchPrize] returns what
    the algorithm of the specification prescribes, and nothing else does. *)
Lemma calculateScratchPrize_refines_spec (r betAmount rtpPercentage : Q)
    (res : scratch_prize) :
  spec_computePrize r betAmount rtpPercentage res <->
  multiplier res == multiplier (calculateScratchPrize r betAmount rtpPercentage) /\
  prizeAmount res == prizeAmount (calculateScratchPrize r betAmount rtpPercentage).
Proof.
  split.
  - intros (bonus & base & Hbonus & Hbase & Hm & Hp).
    pose proof (spec_bonusChance_range _ _ Hbonus) as [Hb0 Hb1].
    pose proof (spec_bonusChance_functional _ _ _ Hbonus (bonusChance_spec betAmount))
      as ->.
    assert (base = drawnMultiplier r (bonusChance betAmount)) as ->.
    { eapply spec_baseMultiplier_functional;
        [ | | | exact Hbase | apply drawnMultiplier_spec ]; lra. }
    cbn [calculateScratchPrize multiplier prizeAmount]. split; [exact Hm |].
    eapply half_up_2dp_unique; [exact Hp | apply half_up_2dp_Math_round].
  - intros [Hm Hp].
    exists (bonusChance betAmount), (drawnMultiplier r (bonusChance betAmount)).
    split; [apply bonusChance_spec |].
    split; [apply drawnMultiplier_spec |].
    split; [exact Hm |].
    destruct (half_up_2dp_Math_round
                (betAmount * (drawnMultiplier r (bonusChance betAmount)
                              * (rtpPercentage / 95.0)))) as (n & Hy & Hn).
    exists n. split; [| exact Hn].
    rewrite Hp. exact Hy.
Qed.

(** ** The engine in double precision *)

(** The doubles of 0.1 and of 0.1 + 0.2, and numbers that are doubles
    already. *)
Example binary64_tenth :
  binary64 0.1 == 3602879701896397 # 36028797018963968 /\
  js_add (binary64 0.1) (binary64 0.2) == 1351079888211149 # 4503599627370496 /\
  ~ js_add (binary64 0.1) (binary64 0.2) == binary64 0.3.
Proof. repeat split; vm_compute; discriminate || reflexivity. Qed.

Example binary64_of_doubles :
  binary64 95.0 == 95.0 /\ binary64 0.5 == 0.5 /\ binary64 (-1.5) == -1.5 /\
  binary64 (Qpower 2 (-1074)) == Qpower 2 (-1074) /\
  binary64 (Qpower 2 (-1075)) == 0 /\
  binary64 (3 * Qpower 2 (-1075)) == 2 * Qpower 2 (-1074) /\
  binary64 (9007199254740993 # 1) == 9007199254740992 # 1.
Proof. repeat split; vm_compute; reflexivity. Qed.

Lemma bonusChance_binary64_spec betAmount :
  spec_bonusChance_binary64 betAmount (bonusChance_binary64 betAmount).
Proof.
  unfold bonusChance_binary64.
  repeat match goal with
         | |- context [js_ge ?a ?b] => destruct (js_ge_spec a b)
         end.
  - now apply bonus64_from_50.
  - apply bonus64_30_50; lra.
  - apply bonus64_20_30; lra.
  - apply bonus64_10_20; lra.
  - apply bonus64_5_10; lra.
  - apply bonus64_below_5; lra.
Qed.

Lemma spec_bonusChance_binary64_functional betAmount x y :
  spec_bonusChance_binary64 betAmount x -> spec_bonusChance_binary64 betAmount y ->
  x = y.
Proof. intros Hx Hy. destruct Hx; destruct Hy; solve [reflexivity | lra]. Qed.

(** The computed thresholds ascend, for each of the six bonuses. *)
Lemma thresholds_binary64_ascend betAmount bonus :
  spec_bonusChance_binary64 betAmount bonus ->
  threshold1_binary64 bonus <= threshold2_binary64 bonus /\
  threshold2_binary64 bonus <= threshold3_binary64 bonus /\
  threshold3_binary64 bonus <= threshold4_binary64 bonus.
Proof.
  intros Hbonus. destruct Hbonus; repeat split; vm_compute; discriminate.
Qed.

Lemma drawnMultiplier_binary64_spec r bonus :
  spec_baseMultiplier r (threshold1_binary64 bonus) (threshold2_binary64 bonus)
    (threshold3_binary64 bonus) (threshold4_binary64 bonus)
    (drawnMultiplier_binary64 r bonus).
Proof.
  unfold drawnMultiplier_binary64.
  repeat match goal with
         | |- context [js_lt ?a ?b] => destruct (js_lt_spec a b)
         end.
  - now apply base_10.
  - apply base_5; lra.
  - apply base_2; lra.
  - apply base_1; lra.
  - apply base_0; lra.
Qed.

(** C4, as the code has it.  For every stake, RTP and draw,
    [calculateScratchPrize] computing in doubles returns what the algorithm
    of the specification gives when it is carried out in doubles, and nothing
    else does: the bonus is the step function of the stake; the thresholds
    are 0.02 + 0.15 bonus, 0.07 + 0.30 bonus, 0.22 + 0.40 bonus and
    0.50 + 0.15 bonus with each constant, product and sum rounded to a double;
    the base multiplier is 10, 5, 2, 1 or 0 by the half-open bands of the
    draw between those thresholds; the multiplier is the double of the base
    multiplier times the double of rtp / 95.0; and the prize is the whole
    number of cents nearest to the double of stake times multiplier times
    100, a half going up, divided by 100 as a double. *)
Theorem calculateScratchPrize_binary64_refines_spec
    (r betAmount rtpPercentage : Q) (res : scratch_prize) :
  spec_computePrize_binary64 r betAmount rtpPercentage res <->
  multiplier res ==
    multiplier (calculateScratchPrize_binary64 r betAmount rtpPercentage) /\
  prizeAmount res ==
    prizeAmount (calculateScratchPrize_binary64 r betAmount rtpPercentage).
Proof.
  split.
  - intros (bonus & base & cents & Hbonus & Hbase & Hm & Hlo & Hhi & Hp).
    destruct (thresholds_binary64_ascend _ _ Hbonus) as (H12 & H23 & H34).
    pose proof (spec_bonusChance_binary64_functional _ _ _ Hbonus
                  (bonusChance_binary64_spec betAmount)) as ->.
    assert (base = drawnMultiplier_binary64 r (bonusChance_binary64 betAmount))
      as ->.
    { eapply spec_baseMultiplier_functional;
        [ exact H12 | exact H23 | exact H34 | exact Hbase
        | apply drawnMultiplier_binary64_spec ]. }
    cbn [calculateScratchPrize_binary64 multiplier prizeAmount].
    split; [exact Hm |].
    assert (Math_round
              (js_mul
                 (js_mul betAmount
                    (js_mul
                       (drawnMultiplier_binary64 r (bonusChance_binary64 betAmount))
                       (js_div rtpPercentage 95.0))) 100) = cents) as ->;
      [| exact Hp].
    apply Qfloor_unique; lra.
  - intros [Hm Hp].
    exists (bonusChance_binary64 betAmount),
           (drawnMultiplier_binary64 r (bonusChance_binary64 betAmount)),
           (Math_round
              (js_mul (js_mul betAmount
                         (js_mul
                            (drawnMultiplier_binary64 r
                               (bonusChance_binary64 betAmount))
                            (js_div rtpPercentage 95.0))) 100)).
    split; [apply bonusChance_binary64_spec |].
    split; [apply drawnMultiplier_binary64_spec |].
    split; [exact Hm |].
    destruct (Math_round_bounds
                (js_mul (js_mul betAmount
                           (js_mul
                              (drawnMultiplier_binary64 r
                                 (bonusChance_binary64 betAmount))
                              (js_div rtpPercentage 95.0))) 100)) as [Hlo Hhi].
    split; [exact Hlo |]. split; [exact Hhi | exact Hp].
Qed.

(** C4, as it is worded, fails, because the code computes in doubles.  At
    stake 1.5, RTP 51.49 and draw 0.06 (base multiplier 5) the exact product
    lies just above 4.065, which rounds half-up to 4.07, while the code
    computes 406.49999999999994 cents and pays 4.06.  At stake 50 and RTP
    95.0 the double of 0.5225 is a draw below the threshold 0.5225 of the
    specification, which makes the base multiplier 1 and the prize the stake,
    while the threshold the code computes is that same double, so that the
    draw is not below it and the round is lost. *)
Lemma doubles_move_a_cent_and_a_band :
  (let r := binary64 0.06 in
   let rtp := binary64 51.49 in
   let paid := calculateScratchPrize_binary64 r 1.5 rtp in
   (forall res, spec_computePrize r 1.5 rtp res -> prizeAmount res == 4.07) /\
   Math_round (js_mul (js_mul 1.5 (multiplier paid)) 100) = 406%Z /\
   prizeAmount paid == binary64 4.06 /\
   ~ spec_computePrize r 1.5 rtp paid) /\
  (let r := binary64 0.5225 in
   let paid := calculateScratchPrize_binary64 r 50 95.0 in
   r < 0.50 + 0.15 * 0.15 /\
   (forall res, spec_computePrize r 50 95.0 res ->
                multiplier res == 1 /\ prizeAmount res == 50) /\
   multiplier paid == 0 /\ prizeAmount paid == 0 /\
   ~ spec_computePrize r 50 95.0 paid).
Proof.
  split.
  - intros r rtp paid.
    assert (forall res, spec_computePrize r 1.5 rtp res -> prizeAmount res == 4.07)
      as Hspec.
    { intros res Hres. apply calculateScratchPrize_refines_spec in Hres as [_ ->].
      vm_compute. reflexivity. }
    split; [exact Hspec |]. split; [vm_compute; reflexivity |].
    split; [vm_compute; reflexivity |].
    intros Hpaid. apply Hspec in Hpaid. revert Hpaid. vm_compute. discriminate.
  - intros r paid.
    assert (forall res, spec_computePrize r 50 95.0 res ->
                        multiplier res == 1 /\ prizeAmount res == 50) as Hspec.
    { intros res Hres. apply calculateScratchPrize_refines_spec in Hres as [-> ->].
      split; vm_compute; reflexivity. }
    split; [vm_compute; reflexivity |]. split; [exact Hspec |].
    split; [vm_compute; reflexivity |]. split; [vm_compute; reflexivity |].
    intros Hpaid. apply Hspec in Hpaid as [Hm _]. revert Hm. vm_compute.
    discriminate.
Qed.


(** ** Running the ledger operations *)

(** A round that returns has passed the three checks and has committed
    exactly one UPDATE of the user's row and one INSERT, both with the
    values as their columns keep them. *)
Lemma playScratchCard_returned faults parseFloat random userId betAmount d res d' tr :
  call (playScratchCard faults parseFloat random userId betAmount) d
  = (Returned res, d', tr) ->
  includes ALLOWED_BETS (toFixed2 betAmount) = true /\
  exists u keptBalance keptRollover kept,
    users d !! userId = Some u /\
    js_lt (balance u) betAmount = false /\
    let rtp := configured_rtp parseFloat d in
    let p := calculateScratchPrize random betAmount rtp in
    let newBalance := balance u - betAmount + prizeAmount p in
    let newRollover := Math_max 0 (rollover_required u - betAmount) in
    res = {| success := true; prize := prizeAmount p; finalBalance := newBalance;
             result_multiplier := multiplier p; result_betAmount := betAmount |} /\
    DECIMAL 12 newBalance = Some keptBalance /\
    DECIMAL 12 newRollover = Some keptRollover /\
    js_ge keptBalance 0 = true /\ js_ge keptRollover 0 = true /\
    stored_round (round_record userId betAmount p rtp) = Some kept /\
    d' = {| users := alter (settled_row keptBalance keptRollover) userId (users d);
            game_rounds := game_rounds d ++ [kept];
            settings := settings d |} /\
    tr = [PoolConnect; ClientQuery BEGIN;
          ClientQuery (SELECT_user_FOR_UPDATE userId);
          PoolQuery (SELECT_setting "rtp_percentage");
          ClientQuery (UPDATE_user_ledger newBalance newRollover userId);
          ClientQuery (INSERT_game_round (round_record userId betAmount p rtp));
          ClientQuery COMMIT; ClientRelease].
Proof.
  unfold call, playScratchCard.
  destruct (includes ALLOWED_BETS (toFixed2 betAmount)); cbn [negb];
    [| run_ledger; discriminate].
  settle_run; try discriminate.
  intros [= <- <- <-]. split; [reflexivity |].
  do 4 eexists. split; [reflexivity |]. split; [assumption |].
  repeat (split; [eassumption || reflexivity |]). reflexivity.
Qed.

(** A round that throws leaves the committed database as it was.  An
    invalid stake is thrown before any round trip; a missing user and an
    uncovered stake are thrown inside the transaction, after the locking
    SELECT, and are followed by ROLLBACK. *)
Lemma playScratchCard_thrown faults parseFloat random userId betAmount d e d' tr :
  call (playScratchCard faults parseFloat random userId betAmount) d
  = (Thrown e, d', tr) ->
  d' = d /\
  (e = InvalidBet ->
   tr = [] /\ includes ALLOWED_BETS (toFixed2 betAmount) = false) /\
  (e = NotFound ->
   tr = [PoolConnect; ClientQuery BEGIN;
         ClientQuery (SELECT_user_FOR_UPDATE userId);
         ClientQuery ROLLBACK; ClientRelease] /\
   includes ALLOWED_BETS (toFixed2 betAmount) = true /\
   users d !! userId = None) /\
  (e = InsufficientFunds ->
   tr = [PoolConnect; ClientQuery BEGIN;
         ClientQuery (SELECT_user_FOR_UPDATE userId);
         ClientQuery ROLLBACK; ClientRelease] /\
   includes ALLOWED_BETS (toFixed2 betAmount) = true /\
   exists u, users d !! userId = Some u /\ js_lt (balance u) betAmount = true) /\
  (In (ClientQuery BEGIN) tr -> In (ClientQuery ROLLBACK) tr).
Proof.
  unfold call, playScratchCard.
  destruct (includes ALLOWED_BETS (toFixed2 betAmount)); cbn [negb].
  - settle_run; intros [= <- <- <-];
      (split; [reflexivity |]);
      repeat split; try discriminate; cbn [In]; try tauto; eauto 10.
    all: intuition discriminate.
  - run_ledger. intros [= <- <- <-].
    repeat split; try discriminate; cbn [In]; tauto.
Qed.

(** With the first four round trips granted (connect, BEGIN, SELECT,
    ROLLBACK), the three checks decide what is thrown. *)
Lemma playScratchCard_checks faults parseFloat random userId betAmount d :
  (forall n, (n < 4)%nat -> faults n = false) ->
  includes ALLOWED_BETS (toFixed2 betAmount) = true ->
  match users d !! userId with
  | None =>
      (call (playScratchCard faults parseFloat random userId betAmount) d).1.1
      = Thrown NotFound
  | Some u =>
      js_lt (balance u) betAmount = true ->
      (call (playScratchCard faults parseFloat random userId betAmount) d).1.1
      = Thrown InsufficientFunds
  end.
Proof.
  intros Hok Hbet.
  pose proof (Hok 0%nat ltac:(lia)) as H0. pose proof (Hok 1%nat ltac:(lia)) as H1.
  pose proof (Hok 2%nat ltac:(lia)) as H2. pose proof (Hok 3%nat ltac:(lia)) as H3.
  unfold call, playScratchCard. rewrite Hbet. cbn [negb].
  run_ledger. rewrite H0. run_ledger. rewrite H1. run_ledger. rewrite H2.
  run_ledger. destruct (users d !! userId) as [u |].
  - intros ->. run_ledger. rewrite H3. reflexivity.
  - run_ledger. rewrite H3. reflexivity.
Qed.

(** ** Stakes allowed to the cent *)

Lemma ALLOWED_BETS_cents a :
  In a ALLOWED_BETS -> exists k : Z, (50 <= k)%Z /\ a == inject_Z k / 100.
Proof.
  cbn [ALLOWED_BETS In]. intros H.
  repeat (destruct H as [<- | H];
          [ match goal with
            | |- exists k, _ /\ ?q == _ =>
                exists (Qfloor (q * 100)); split; [vm_compute; discriminate | reflexivity]
            end | ]).
  contradiction.
Qed.

Lemma toFixed2_half_up x : 0 <= x -> half_up_2dp x (toFixed2 x).
Proof.
  intros Hx. unfold toFixed2. destruct (js_lt_spec x 0) as [Hneg | _]; [lra |].
  exists (Qfloor (x * 100 + 0.5)). split; [reflexivity |].
  destruct (Qfloor_bounds (x * 100 + 0.5)). split; lra.
Qed.

Lemma toFixed2_negative x : x < 0 -> toFixed2 x <= 0.
Proof.
  intros Hx. unfold toFixed2. destruct (js_lt_spec x 0) as [_ | Hpos]; [| lra].
  assert (0 <= Qfloor (- x * 100 + 0.5))%Z as Hn.
  { assert (inject_Z (-1) < inject_Z (Qfloor (- x * 100 + 0.5))) as H.
    { destruct (Qfloor_bounds (- x * 100 + 0.5)).
      change (inject_Z (-1)) with (-1). lra. }
    rewrite <- Zlt_Qlt in H. lia. }
  rewrite Zle_Qle in Hn. change (inject_Z 0) with 0 in Hn.
  assert (0 <= inject_Z (Qfloor (- x * 100 + 0.5)) / 100)
    by (apply Qle_shift_div_l; lra).
  lra.
Qed.

(** The test of [playScratchCard] on the stake is the test "equal to an
    allowed value to the cent". *)
Lemma includes_allowed_to_the_cent betAmount :
  includes ALLOWED_BETS (toFixed2 betAmount) = true <-> allowed_to_the_cent betAmount.
Proof.
  unfold includes, allowed_to_the_cent. rewrite existsb_exists. split.
  - intros (a & Hin & Heq). apply Qeq_bool_iff in Heq.
    exists a. split; [exact Hin |].
    destruct (ALLOWED_BETS_cents a Hin) as (k & Hk & Ha).
    assert (0 < a).
    { rewrite Ha. apply Qlt_shift_div_l; [lra |].
      rewrite Zle_Qle in Hk. change (inject_Z 50) with 50 in Hk. lra. }
    destruct (Qlt_le_dec betAmount 0) as [Hneg | Hpos].
    + pose proof (toFixed2_negative _ Hneg). lra.
    + destruct (toFixed2_half_up _ Hpos) as (n & Hy & Hn).
      exists n. split; [| exact Hn]. now rewrite <- Heq.
  - intros (a & Hin & Hround). exists a. split; [exact Hin |].
    apply Qeq_bool_iff.
    destruct (ALLOWED_BETS_cents a Hin) as (k & Hk & Ha).
    assert (0 <= betAmount) as Hpos.
    { destruct Hround as (n & Hy & Hlo & Hhi).
      assert (inject_Z n == inject_Z k) as Hnk.
      { rewrite Hy in Ha.
        apply (Qmult_inj_r _ _ (/ 100)); [discriminate | exact Ha]. }
      rewrite Zle_Qle in Hk. change (inject_Z 50) with 50 in Hk. lra. }
    eapply half_up_2dp_unique; [apply toFixed2_half_up, Hpos | exact Hround].
Qed.

Lemma allowed_to_the_cent_lower betAmount :
  allowed_to_the_cent betAmount -> 0.495 <= betAmount.
Proof.
  intros (a & Hin & n & Hy & Hlo & Hhi).
  destruct (ALLOWED_BETS_cents a Hin) as (k & Hk & Ha).
  assert (inject_Z n == inject_Z k) as Hnk.
  { rewrite Hy in Ha. apply (Qmult_inj_r _ _ (/ 100)); [discriminate | exact Ha]. }
  rewrite Zle_Qle in Hk. change (inject_Z 50) with 50 in Hk. lra.
Qed.

Lemma drawnMultiplier_nonneg r bonus : 0 <= drawnMultiplier r bonus.
Proof.
  pose proof (drawnMultiplier_values r bonus) as H. cbn [In] in H.
  repeat (destruct H as [<- | H]; [lra |]). contradiction.
Qed.

Lemma Math_round_nonneg x : 0 <= x -> (0 <= Math_round x)%Z.
Proof.
  intros Hx. unfold Math_round.
  assert (inject_Z (-1) < inject_Z (Qfloor (x + 0.5))) as H.
  { destruct (Qfloor_bounds (x + 0.5)). change (inject_Z (-1)) with (-1). lra. }
  rewrite <- Zlt_Qlt in H. lia.
Qed.

(** A non-negative stake at a non-negative RTP wins a non-negative prize. *)
Lemma prizeAmount_nonneg r betAmount rtpPercentage :
  0 <= betAmount -> 0 <= rtpPercentage ->
  0 <= prizeAmount (calculateScratchPrize r betAmount rtpPercentage).
Proof.
  intros Hbet Hrtp. cbn [calculateScratchPrize prizeAmount].
  apply Qle_shift_div_l; [lra |]. rewrite Qmult_0_l.
  change 0 with (inject_Z 0). rewrite <- Zle_Qle.
  apply Math_round_nonneg.
  assert (0 <= rtpPercentage / 95.0) by (apply Qle_shift_div_l; lra).
  apply Qmult_le_0_compat; [| lra].
  apply Qmult_le_0_compat; [assumption |].
  apply Qmult_le_0_compat; [apply drawnMultiplier_nonneg | assumption].
Qed.

Lemma Math_max_0_bounds r betAmount :
  0 <= r -> 0 <= betAmount ->
  0 <= Math_max 0 (r - betAmount) /\ Math_max 0 (r - betAmount) <= r.
Proof.
  intros Hr Hbet. unfold Math_max.
  destruct (Qle_bool 0 (r - betAmount)) eqn:E.
  - apply Qle_bool_iff in E. lra.
  - lra.
Qed.

(** ** What the columns keep *)

Lemma hundredths_bounds x :
  inject_Z (hundredths x) - 0.5 <= x * 100 /\ x * 100 <= inject_Z (hundredths x) + 0.5.
Proof.
  unfold hundredths. destruct (js_lt_spec x 0) as [Hneg | Hpos].
  - destruct (Qfloor_bounds (- x * 100 + 0.5)) as [Hlo Hhi].
    rewrite inject_Z_opp. split; lra.
  - destruct (Qfloor_bounds (x * 100 + 0.5)) as [Hlo Hhi]. split; lra.
Qed.

(** A whole number of hundredths is kept as it is. *)
Lemma hundredths_of_whole k : hundredths (inject_Z k / 100) = k.
Proof.
  unfold hundredths. destruct (js_lt_spec (inject_Z k / 100) 0) as [Hneg | Hpos].
  - rewrite (Qfloor_unique _ (- k)); [lia |
      rewrite inject_Z_opp; field_simplify; lra ..].
  - now apply Qfloor_unique; field_simplify; lra.
Qed.

Lemma DECIMAL_kept precision x v :
  DECIMAL precision x = Some v ->
  v = inject_Z (hundredths x) / 100 /\ v - 0.005 <= x /\ x <= v + 0.005.
Proof.
  unfold DECIMAL. destruct (Z.abs (hundredths x) <? 10 ^ precision)%Z; [| discriminate].
  intros [= <-]. split; [reflexivity |].
  destruct (hundredths_bounds x) as [Hlo Hhi].
  set (n := inject_Z (hundredths x)) in *.
  assert (n / 100 == n * (1 # 100)) as -> by field. split; lra.
Qed.

Lemma DECIMAL_whole_cents precision x v :
  DECIMAL precision x = Some v -> whole_cents v /\ Qabs (v - x) < 0.01.
Proof.
  intros Hv. apply DECIMAL_kept in Hv as (-> & Hlo & Hhi).
  split; [eexists; reflexivity |]. apply Qabs_case; intros; lra.
Qed.

Lemma DECIMAL_of_whole_cents precision x v :
  DECIMAL precision x = Some v -> whole_cents x -> v == x.
Proof.
  intros Hv [k Hk]. apply DECIMAL_kept in Hv as (-> & Hlo & Hhi).
  set (n := hundredths x) in *.
  assert (inject_Z n / 100 == inject_Z n * (1 # 100)) as En by field.
  assert (inject_Z k / 100 == inject_Z k * (1 # 100)) as Ek by field.
  assert (n = k) as ->; [| now rewrite Hk].
  assert (inject_Z n < inject_Z (k + 1) /\ inject_Z k < inject_Z (n + 1)) as [H1 H2]
    by (rewrite !inject_Z_succ; split; lra).
  rewrite <- Zlt_Qlt in H1, H2. lia.
Qed.

(** A value that is written as a whole number of hundredths is kept
    unchanged, not just up to [==]. *)
Lemma DECIMAL_of_hundredths precision k v :
  DECIMAL precision (inject_Z k / 100) = Some v -> v = inject_Z k / 100.
Proof.
  intros Hv. apply DECIMAL_kept in Hv as (-> & _). now rewrite hundredths_of_whole.
Qed.

Lemma DECIMAL_nonneg precision x v : DECIMAL precision x = Some v -> 0 <= x -> 0 <= v.
Proof.
  intros Hv Hx. apply DECIMAL_kept in Hv as (-> & _).
  unfold hundredths. destruct (js_lt_spec x 0) as [Hneg | _]; [lra |].
  apply Qle_shift_div_l; [lra |]. rewrite Qmult_0_l.
  change 0 with (inject_Z 0). rewrite <- Zle_Qle.
  apply (Math_round_nonneg (x * 100)). lra.
Qed.

Lemma DECIMAL_zero precision v : DECIMAL precision 0 = Some v -> v == 0.
Proof. intros Hv. apply DECIMAL_kept in Hv as (-> & _). reflexivity. Qed.

(** From a row of whole cents and a stake of whole cents, the balance and
    the rollover a round binds to its UPDATE are whole cents again. *)
Lemma whole_cents_plus x y : whole_cents x -> whole_cents y -> whole_cents (x + y).
Proof.
  intros [n Hn] [m Hm]. exists (n + m)%Z.
  rewrite Hn, Hm, inject_Z_plus. field.
Qed.

Lemma whole_cents_opp x : whole_cents x -> whole_cents (- x).
Proof.
  intros [n Hn]. exists (- n)%Z. rewrite Hn, inject_Z_opp. field.
Qed.


(** What [game_rounds] keeps of a round, column by column. *)
Lemma stored_round_kept row g :
  stored_round row = Some g ->
  user_id g = user_id row /\ game_type g = game_type row /\
  result_data g = result_data row /\
  DECIMAL 12 (bet_amount row) = Some (bet_amount g) /\
  DECIMAL 12 (prize_amount row) = Some (prize_amount g) /\
  DECIMAL 6 (round_multiplier row) = Some (round_multiplier g).
Proof.
  unfold stored_round.
  destruct (DECIMAL 12 (bet_amount row)) as [stake |]; [| discriminate].
  destruct (DECIMAL 12 (prize_amount row)) as [won |]; [| discriminate].
  destruct (DECIMAL 6 (round_multiplier row)) as [times |]; [| discriminate].
  intros [= <-]. repeat split.
Qed.

(** The round recorded for a call that returns. *)
Lemma recorded_round_kept random userId betAmount rtp g :
  let p := calculateScratchPrize random betAmount rtp in
  stored_round (round_record userId betAmount p rtp) = Some g ->
  user_id g = userId /\ game_type g = "scratch_card" /\ result_data g = rtp /\
  whole_cents (bet_amount g) /\ Qabs (bet_amount g - betAmount) < 0.01 /\
  (whole_cents betAmount -> bet_amount g == betAmount) /\
  prize_amount g = prizeAmount p /\
  whole_cents (round_multiplier g) /\
  Qabs (round_multiplier g - multiplier p) < 0.01 /\
  (whole_cents (multiplier p) -> round_multiplier g == multiplier p).
Proof.
  intros p Hg.
  apply stored_round_kept in Hg as (Hid & Htype & Hdata & Hstake & Hwon & Htimes).
  cbn [round_record user_id game_type result_data bet_amount prize_amount
       round_multiplier] in *.
  split; [exact Hid |]. split; [exact Htype |]. split; [exact Hdata |].
  destruct (DECIMAL_whole_cents _ _ _ Hstake) as [Hc1 Hd1].
  destruct (DECIMAL_whole_cents _ _ _ Htimes) as [Hc2 Hd2].
  split; [exact Hc1 |]. split; [exact Hd1 |].
  split; [now apply (DECIMAL_of_whole_cents _ _ _ Hstake) |].
  split; [now apply DECIMAL_of_hundredths in Hwon |].
  split; [exact Hc2 |]. split; [exact Hd2 |].
  now apply (DECIMAL_of_whole_cents _ _ _ Htimes).
Qed.

(** ** Round Settlement *)

(** C1. A committed round, played from a ledger row with non-negative
    balance and rollover under a non-negative RTP, leaves the balance
    non-negative, the rollover non-negative, and the rollover no larger than
    it was. *)
Theorem committed_round_keeps_ledger_invariants
    (faults : nat -> bool) (parseFloat : string -> Q) (random : Q)
    (userId : string) (betAmount : Q) (d d' : database) (u : user_row)
    (res : play_result) (tr : list event) :
  users d !! userId = Some u ->
  0 <= balance u ->
  0 <= rollover_required u ->
  0 <= configured_rtp parseFloat d ->
  call (playScratchCard faults parseFloat random userId betAmount) d
  = (Returned res, d', tr) ->
  exists u',
    users d' !! userId = Some u' /\
    0 <= balance u' /\
    0 <= rollover_required u' /\
    rollover_required u' <= rollover_required u.
Proof.
  intros Hu Hbal Hroll Hrtp Hcall.
  apply playScratchCard_returned in Hcall
    as (Hbet & u0 & keptBalance & keptRollover & kept & Hu0 & Hfunds & _
        & HkeptB & HkeptR & _ & _ & _ & -> & _).
  rewrite Hu in Hu0. injection Hu0 as <-.
  apply includes_allowed_to_the_cent, allowed_to_the_cent_lower in Hbet.
  eexists. split.
  { cbn [users]. rewrite lookup_alter_eq, Hu. reflexivity. }
  cbn [settled_row balance rollover_required].
  destruct (js_lt_spec (balance u) betAmount) as [| Hcover]; [discriminate |].
  pose proof (prizeAmount_nonneg random betAmount (configured_rtp parseFloat d)
                ltac:(lra) Hrtp).
  split; [eapply DECIMAL_nonneg; [exact HkeptB | lra] |].
  revert HkeptR. unfold Math_max.
  destruct (Qle_bool 0 (rollover_required u - betAmount)) eqn:E; intros HkeptR.
  - apply Qle_bool_iff in E.
    pose proof (DECIMAL_nonneg _ _ _ HkeptR E).
    apply DECIMAL_kept in HkeptR as (_ & Hlo & _). split; lra.
  - apply DECIMAL_zero in HkeptR. split; lra.
Qed.

Lemma committed_round_keeps_ledger_invariants_witness :
  exists u',
    users (call (playScratchCard reliable decimal_of_string 0.3 "alice" 10.00)
             example_db).1.2 !! "alice" = Some u' /\
    0 <= balance u' /\ 0 <= rollover_required u' /\
    rollover_required u' <= rollover_required alice.
Proof.
  eapply (committed_round_keeps_ledger_invariants reliable decimal_of_string 0.3
            "alice" 10.00 example_db _ alice).
  - reflexivity.
  - vm_compute. discriminate.
  - vm_compute. discriminate.
  - vm_compute. discriminate.
  - vm_compute. reflexivity.
Defined.

(** C3, as the code has it.  A round that throws, whatever it throws and
    whichever round trip the server refused, leaves the committed database
    as it was: no balance, no rollover and no game round changes.  An invalid
    stake is thrown before any round trip.  A missing user and an uncovered
    stake are thrown inside the transaction, after BEGIN and the locking
    SELECT, and ROLLBACK follows; any failure after BEGIN is followed by
    ROLLBACK. *)
Theorem failed_round_changes_nothing
    (faults : nat -> bool) (parseFloat : string -> Q) (random : Q)
    (userId : string) (betAmount : Q) (d d' : database) (e : error)
    (tr : list event) :
  call (playScratchCard faults parseFloat random userId betAmount) d
  = (Thrown e, d', tr) ->
  d' = d /\
  (e = InvalidBet -> tr = []) /\
  (e = NotFound \/ e = InsufficientFunds ->
   tr = [PoolConnect; ClientQuery BEGIN;
         ClientQuery (SELECT_user_FOR_UPDATE userId);
         ClientQuery ROLLBACK; ClientRelease]) /\
  (In (ClientQuery BEGIN) tr -> In (ClientQuery ROLLBACK) tr).
Proof.
  intros Hcall.
  apply playScratchCard_thrown in Hcall as (Hd & Hbet & Huser & Hfunds & Hrb).
  split; [exact Hd |]. split; [| split; [| exact Hrb]].
  - intros He. now apply Hbet.
  - intros [He | He]; [now apply Huser | now apply Hfunds].
Qed.

Lemma failed_round_changes_nothing_witness :
  (call (playScratchCard reliable decimal_of_string 0.3 "bob" 15.00) example_db).1.2
  = example_db.
Proof.
  eapply (failed_round_changes_nothing reliable decimal_of_string 0.3 "bob" 15.00
            example_db _ InsufficientFunds).
  vm_compute. reflexivity.
Defined.

(** C3, as it is worded, fails: a stake that the balance does not cover is
    found out only after the connection was taken, the transaction begun
    and the row read under lock. *)
Lemma insufficient_funds_found_under_lock :
  call (playScratchCard reliable decimal_of_string 0.3 "bob" 15.00) example_db
  = (Thrown InsufficientFunds, example_db,
     [PoolConnect; ClientQuery BEGIN; ClientQuery (SELECT_user_FOR_UPDATE "bob");
      ClientQuery ROLLBACK; ClientRelease]) /\
  call (playScratchCard reliable decimal_of_string 0.3 "carol" 15.00) example_db
  = (Thrown NotFound, example_db,
     [PoolConnect; ClientQuery BEGIN; ClientQuery (SELECT_user_FOR_UPDATE "carol");
      ClientQuery ROLLBACK; ClientRelease]).
Proof. split; vm_compute; reflexivity. Qed.

(** C6. [playScratchCard] throws the invalid-stake error exactly when the
    stake equals no allowed value to the cent, whatever else holds.  For an
    allowed stake, and a server that grants the round trips of the checks, it
    throws the missing-user error exactly when no row has the id; and for an
    allowed stake and an existing user it throws the insufficient-funds error
    exactly when the balance is strictly below the stake. *)
Theorem validation_in_order
    (faults : nat -> bool) (parseFloat : string -> Q) (random : Q)
    (userId : string) (betAmount : Q) (d : database) :
  let thrown e :=
    (call (playScratchCard faults parseFloat random userId betAmount) d).1.1
    = Thrown e in
  (thrown InvalidBet <-> ~ allowed_to_the_cent betAmount) /\
  (allowed_to_the_cent betAmount ->
   (forall n, (n < 4)%nat -> faults n = false) ->
   (thrown NotFound <-> users d !! userId = None) /\
   (forall u, users d !! userId = Some u ->
              (thrown InsufficientFunds <-> balance u < betAmount))).
Proof.
  intros thrown. subst thrown. cbv beta.
  destruct (call (playScratchCard faults parseFloat random userId betAmount) d)
    as [[out d'] tr] eqn:Hcall.
  cbn [fst]. split.
  - rewrite <- includes_allowed_to_the_cent. split.
    + intros ->. apply playScratchCard_thrown in Hcall as (_ & Hbet & _).
      destruct (Hbet eq_refl) as [_ ->]. discriminate.
    + intros Hbet. apply not_true_is_false in Hbet.
      revert Hcall. unfold call, playScratchCard. rewrite Hbet. cbn [negb].
      run_ledger. now intros [= <- _ _].
  - intros Hbet Hok. apply includes_allowed_to_the_cent in Hbet.
    pose proof (playScratchCard_checks faults parseFloat random userId betAmount d
                  Hok Hbet) as Hchecks.
    rewrite Hcall in Hchecks. cbn [fst] in Hchecks. split.
    + split.
      * intros ->. apply playScratchCard_thrown in Hcall as (_ & _ & Huser & _).
        now apply Huser.
      * intros Hnone. rewrite Hnone in Hchecks. exact Hchecks.
    + intros u Hu. rewrite Hu in Hchecks. split.
      * intros ->. apply playScratchCard_thrown in Hcall as (_ & _ & _ & Hfunds & _).
        destruct (Hfunds eq_refl) as (_ & _ & u0 & Hu0 & Hlt).
        rewrite Hu in Hu0. injection Hu0 as <-.
        now destruct (js_lt_spec (balance u) betAmount).
      * intros Hlt. apply Hchecks.
        now destruct (js_lt_spec (balance u) betAmount).
Qed.

Lemma allowed_to_the_cent_15 : allowed_to_the_cent 15.00.
Proof. apply includes_allowed_to_the_cent. reflexivity. Qed.

Lemma validation_in_order_witness :
  (call (playScratchCard reliable decimal_of_string 0.3 "carol" 15.00)
     example_db).1.1 = Thrown NotFound /\
  (call (playScratchCard reliable decimal_of_string 0.3 "bob" 15.00)
     example_db).1.1 = Thrown InsufficientFunds.
Proof.
  split.
  - apply (validation_in_order reliable decimal_of_string 0.3 "carol" 15.00
             example_db).
    + exact allowed_to_the_cent_15.
    + reflexivity.
    + reflexivity.
  - apply (proj2 (validation_in_order reliable decimal_of_string 0.3 "bob" 15.00
                    example_db) allowed_to_the_cent_15 (fun _ _ => eq_refl))
      with (u := bob).
    + reflexivity.
    + vm_compute. reflexivity.
Defined.









(** ** Rollover Activation *)

(** Whatever the server refuses, an activation that finds no row with the
    flag still false leaves the committed database as it was, and returns
    [false] unless a round trip was refused. *)
Lemma applyFirstDepositRollover_no_op faults userId amount d :
  (users d !! userId = None \/
   exists u, users d !! userId = Some u /\ first_deposit_made u = true) ->
  exists r tr,
    call (applyFirstDepositRollover faults userId amount) d = (r, d, tr) /\
    (r = Returned false \/ r = Thrown StorageFailure) /\
    (faults = reliable ->
     r = Returned false /\
     tr = [PoolConnect; ClientQuery BEGIN;
           ClientQuery (UPDATE_first_deposit amount userId);
           ClientQuery COMMIT; ClientRelease]).
Proof.
  intros Hrow. unfold call, applyFirstDepositRollover.
  destruct Hrow as [Hnone | (u & Hu & Hflag)].
  - settle_run; try congruence;
      (do 2 eexists; split; [reflexivity |]; split; [auto |]);
      intros ->; try discriminate; auto.
  - settle_run; try congruence;
      (do 2 eexists; split; [reflexivity |]; split; [auto |]);
      intros ->; try discriminate; auto.
Qed.

(** C2. On a user whose first deposit has not been made, a first
    activation with an amount of money [a1] (whole cents, not negative, and
    within the range of the column once added) returns [true], adds [a1] to
    the rollover once and sets the flag, leaving the balance as it was; a
    second activation with any [a2] then returns [false], throws nothing and
    changes nothing.  In general an activation on a user whose flag is
    already set changes nothing and returns [false]; only a refusal by the
    server makes it throw. *)
Theorem first_deposit_rollover_applies_once
    (userId : string) (a1 a2 : Q) (d : database) (u : user_row) :
  users d !! userId = Some u ->
  (first_deposit_made u = false ->
   whole_cents a1 -> 0 <= a1 -> 0 <= rollover_required u ->
   rollover_required u + a1 < 10000000000 ->
   let tr a := [PoolConnect; ClientQuery BEGIN;
                ClientQuery (UPDATE_first_deposit a userId);
                ClientQuery COMMIT; ClientRelease] in
   exists d1 u1,
     call (applyFirstDepositRollover reliable userId a1) d
     = (Returned true, d1, tr a1) /\
     users d1 !! userId = Some u1 /\
     rollover_required u1 = rollover_required u + a1 /\
     balance u1 = balance u /\
     first_deposit_made u1 = true /\
     (forall other, other <> userId -> users d1 !! other = users d !! other) /\
     game_rounds d1 = game_rounds d /\
     settings d1 = settings d /\
     call (applyFirstDepositRollover reliable userId a2) d1
     = (Returned false, d1, tr a2)) /\
  (first_deposit_made u = true ->
   forall faults,
   exists r tr,
     call (applyFirstDepositRollover faults userId a2) d = (r, d, tr) /\
     (r = Returned false \/ r = Thrown StorageFailure) /\
     (faults = reliable -> r = Returned false)).
Proof.
  intros Hu. split.
  - intros Hflag _ _ _ _ tr.
    exists (set_users (<[userId := activated_row a1 u]> (users d)) d),
           (activated_row a1 u).
    split; [| split; [| split; [| split; [| split; [| split; [| split; [| split]]]]]]].
    + unfold call, applyFirstDepositRollover. run_ledger. cbv [reliable].
      run_ledger. rewrite Hu. run_ledger. rewrite Hflag. reflexivity.
    + cbn [set_users users]. apply lookup_insert_eq.
    + reflexivity.
    + reflexivity.
    + reflexivity.
    + intros other Hother. cbn [set_users users].
      apply lookup_insert_ne. congruence.
    + reflexivity.
    + reflexivity.
    + destruct (applyFirstDepositRollover_no_op reliable userId a2
                  (set_users (<[userId := activated_row a1 u]> (users d)) d))
        as (r & tr2 & Hcall & _ & Hrel).
      { right. exists (activated_row a1 u). split; [| reflexivity].
        cbn [set_users users]. apply lookup_insert_eq. }
      destruct (Hrel eq_refl) as [-> ->]. exact Hcall.
  - intros Hflag faults.
    destruct (applyFirstDepositRollover_no_op faults userId a2 d)
      as (r & tr & Hcall & Hr & Hrel); [right; eauto |].
    exists r, tr. split; [exact Hcall |]. split; [exact Hr |].
    intros Hf. now apply Hrel.
Qed.

Lemma first_deposit_rollover_applies_once_witness :
  exists d1 u1,
    (call (applyFirstDepositRollover reliable "bob" 500.00) example_db).1
    = (Returned true, d1) /\
    users d1 !! "bob" = Some u1 /\
    rollover_required u1 == 501.00 /\ balance u1 == 10.00 /\
    first_deposit_made u1 = true /\
    (call (applyFirstDepositRollover reliable "bob" 20.00) d1).1
    = (Returned false, d1).
Proof.
  destruct (first_deposit_rollover_applies_once "bob" 500.00 20.00 example_db bob
              eq_refl) as [Hfresh _].
  destruct Hfresh
    as (d1 & u1 & Hfirst & Hrow & Hroll & Hbal & Hflag & _ & _ & _ & Hsecond).
  - reflexivity.
  - exists 50000%Z. reflexivity.
  - discriminate.
  - discriminate.
  - reflexivity.
  - exists d1, u1. rewrite Hfirst, Hsecond, Hroll, Hbal.
    repeat split; try assumption; reflexivity.
Defined.

(** C9. For an id that no row of [users] has, the activation returns
    [false], throws nothing and changes nothing; and under any server it
    returns or throws exactly what it does, with the same log, for a user
    whose first deposit was already activated. *)
Theorem missing_user_activation_is_silent
    (userId : string) (amount : Q) (d : database) :
  users d !! userId = None ->
  call (applyFirstDepositRollover reliable userId amount) d
  = (Returned false, d,
     [PoolConnect; ClientQuery BEGIN;
      ClientQuery (UPDATE_first_deposit amount userId);
      ClientQuery COMMIT; ClientRelease]) /\
  (forall faults, (call (applyFirstDepositRollover faults userId amount) d).1.2 = d) /\
  (forall faults d2 u2,
     users d2 !! userId = Some u2 -> first_deposit_made u2 = true ->
     (call (applyFirstDepositRollover faults userId amount) d).1.1
     = (call (applyFirstDepositRollover faults userId amount) d2).1.1 /\
     (call (applyFirstDepositRollover faults userId amount) d).2
     = (call (applyFirstDepositRollover faults userId amount) d2).2).
Proof.
  intros Hnone. split; [| split].
  - destruct (applyFirstDepositRollover_no_op reliable userId amount d)
      as (r & tr & Hcall & _ & Hrel); [now left |].
    destruct (Hrel eq_refl) as [-> ->]. exact Hcall.
  - intros faults.
    destruct (applyFirstDepositRollover_no_op faults userId amount d)
      as (r & tr & -> & _); [now left |]. reflexivity.
  - intros faults d2 u2 Hu2 Hflag.
    unfold call, applyFirstDepositRollover.
    settle_run; try congruence; split; reflexivity.
Qed.

Lemma missing_user_activation_is_silent_witness :
  call (applyFirstDepositRollover reliable "carol" 500.00) example_db
  = (Returned false, example_db,
     [PoolConnect; ClientQuery BEGIN;
      ClientQuery (UPDATE_first_deposit 500.00 "carol");
      ClientQuery COMMIT; ClientRelease]).
Proof.
  apply (missing_user_activation_is_silent "carol" 500.00 example_db).
  reflexivity.
Defined.

(** * The account operations *)

(** An [updateUserBalance] that returns has found the row, was asked to
    add or to subtract, and has committed one UPDATE of the balance. *)
Lemma updateUserBalance_done faults userId amount operation d v d' tr :
  callA (updateUserBalance faults userId amount operation) d = (Done v, d', tr) ->
  exists u,
    users d !! userId = Some u /\
    (operation = "add" /\ v = balance u + amount \/
     operation = "subtract" /\ v = balance u - amount /\ js_lt v 0 = false) /\
    d' = set_users (alter (with_balance v) userId (users d)) d.
Proof.
  unfold callA, updateUserBalance.
  settle_account; try discriminate; intros [= <- <- <-];
    eexists; (split; [reflexivity |]); (split; [| reflexivity]); auto.
Qed.

Lemma updateUserBalance_failed faults userId amount operation d e d' tr :
  callA (updateUserBalance faults userId amount operation) d = (Failed e, d', tr) ->
  d' = d.
Proof.
  unfold callA, updateUserBalance.
  settle_account; try discriminate; now intros [= <- <- <-].
Qed.

(** X1. An [updateUserBalance] that throws, whatever it throws and
    whichever round trip the server refused, leaves the committed database
    as it was. *)
Theorem updateUserBalance_throw_changes_nothing
    (faults : nat -> bool) (userId : string) (amount : Q) (operation : string)
    (d d' : database) (e : account_error) (tr : list event) :
  callA (updateUserBalance faults userId amount operation) d = (Failed e, d', tr) ->
  d' = d.
Proof. apply updateUserBalance_failed. Qed.

Lemma updateUserBalance_throw_changes_nothing_witness :
  (callA (updateUserBalance reliable "bob" 40.00 "subtract") example_db).1.2
  = example_db.
Proof.
  eapply (updateUserBalance_throw_changes_nothing reliable "bob" 40.00 "subtract"
            example_db _ (LedgerError InsufficientFunds)).
  vm_compute. reflexivity.
Defined.

(** X2. An [updateUserBalance] that returns, on a row of whole cents and
    for an amount of money that the column can hold once added: it was asked
    to add or to subtract, and the balance it has committed is the old one
    plus the amount, or the old one minus an amount that the old one covers;
    the rollover and the flag of the row, the other rows, the game rounds and
    the settings are as they were. *)
Theorem updateUserBalance_commits_sum_or_difference
    (faults : nat -> bool) (userId : string) (amount : Q) (operation : string)
    (d d' : database) (u : user_row) (v : Q) (tr : list event) :
  users d !! userId = Some u ->
  whole_cents (balance u) -> 0 <= balance u ->
  whole_cents amount -> 0 <= amount ->
  balance u + amount < 10000000000 ->
  callA (updateUserBalance faults userId amount operation) d = (Done v, d', tr) ->
  exists u',
    users d' !! userId = Some u' /\
    (operation = "add" /\ balance u' = balance u + amount \/
     operation = "subtract" /\ balance u' = balance u - amount /\
     amount <= balance u) /\
    rollover_required u' = rollover_required u /\
    first_deposit_made u' = first_deposit_made u /\
    (forall other, other <> userId -> users d' !! other = users d !! other) /\
    game_rounds d' = game_rounds d /\
    settings d' = settings d.
Proof.
  intros Hu _ _ _ _ _ Hcall.
  apply updateUserBalance_done in Hcall as (u0 & Hu0 & Hv & ->).
  rewrite Hu in Hu0. injection Hu0 as <-.
  exists (with_balance v u). cbn [set_users users game_rounds settings].
  split; [rewrite lookup_alter_eq, Hu; reflexivity |].
  cbn [with_balance balance rollover_required first_deposit_made].
  split.
  { destruct Hv as [[-> ->] | (-> & -> & Hsign)]; [now left | right].
    repeat split.
    destruct (js_lt_spec (balance u - amount) 0); [discriminate | lra]. }
  repeat (split; [reflexivity |]). split; [| split; reflexivity].
  intros other Hother. now rewrite lookup_alter_ne.
Qed.

Lemma updateUserBalance_commits_sum_or_difference_witness :
  exists u',
    users (callA (updateUserBalance reliable "bob" 4.00 "subtract") example_db).1.2
    !! "bob" = Some u' /\
    balance u' == 6.00 /\ rollover_required u' == 1.00 /\
    first_deposit_made u' = false.
Proof.
  destruct (callA (updateUserBalance reliable "bob" 4.00 "subtract") example_db)
    as [[[v | e] d'] tr] eqn:Hcall; [| vm_compute in Hcall; discriminate].
  destruct (updateUserBalance_commits_sum_or_difference reliable "bob" 4.00
              "subtract" example_db d' bob v tr eq_refl)
    as (u' & Hrow & Hbal & Hroll & Hflag & _).
  - exists 1000%Z. reflexivity.
  - discriminate.
  - exists 400%Z. reflexivity.
  - discriminate.
  - reflexivity.
  - exact Hcall.
  - exists u'. cbn [fst snd]. split; [exact Hrow |].
    rewrite Hroll, Hflag.
    destruct Hbal as [[Hop _] | (_ & -> & _)]; [discriminate Hop |].
    repeat split; reflexivity.
Defined.

(** X3. With the round trips of its checks granted (connect, BEGIN,
    SELECT, ROLLBACK), [updateUserBalance] reports a missing user before it
    looks at the operation; for an existing user it refuses any operation
    other than ["add"] and ["subtract"]; and it refuses a subtraction exactly
    when the balance is strictly below the amount. *)
Theorem updateUserBalance_checks_in_order
    (faults : nat -> bool) (userId : string) (amount : Q) (operation : string)
    (d : database) :
  (forall n, (n < 4)%nat -> faults n = false) ->
  let out := (callA (updateUserBalance faults userId amount operation) d).1.1 in
  (users d !! userId = None -> out = Failed (LedgerError NotFound)) /\
  (forall u, users d !! userId = Some u ->
     (operation <> "add" -> operation <> "subtract" ->
      out = Failed InvalidOperation) /\
     (operation = "subtract" ->
      (out = Failed (LedgerError InsufficientFunds) <-> balance u < amount))).
Proof.
  intros Hok out. subst out.
  pose proof (Hok 0%nat ltac:(lia)) as H0. pose proof (Hok 1%nat ltac:(lia)) as H1.
  pose proof (Hok 2%nat ltac:(lia)) as H2. pose proof (Hok 3%nat ltac:(lia)) as H3.
  unfold callA, updateUserBalance. run_account.
  rewrite H0. run_account. rewrite H1. run_account. rewrite H2. run_account.
  split.
  - intros ->. run_account. rewrite H3. reflexivity.
  - intros u ->. run_account. split.
    + intros Hadd Hsub.
      destruct (String.eqb_spec operation "add") as [| _]; [contradiction |].
      destruct (String.eqb_spec operation "subtract") as [| _]; [contradiction |].
      run_account. rewrite H3. reflexivity.
    + intros ->. cbn [String.eqb Ascii.eqb Bool.eqb].
      destruct (js_lt_spec (balance u - amount) 0) as [Hneg | Hpos]; run_account.
      * rewrite H3. cbn [fst]. split; [intros _; lra | reflexivity].
      * split; [| intros; lra].
        destruct (faults 3%nat); run_account;
          repeat (split_account; run_account); cbn [fst]; discriminate.
Qed.

Lemma updateUserBalance_checks_in_order_witness :
  (callA (updateUserBalance reliable "carol" 5.00 "multiply") example_db).1.1
  = Failed (LedgerError NotFound) /\
  (callA (updateUserBalance reliable "bob" 5.00 "multiply") example_db).1.1
  = Failed InvalidOperation.
Proof.
  split.
  - apply (updateUserBalance_checks_in_order reliable "carol" 5.00 "multiply"
             example_db (fun _ _ => eq_refl)).
    reflexivity.
  - apply (proj2 (updateUserBalance_checks_in_order reliable "bob" 5.00 "multiply"
                    example_db (fun _ _ => eq_refl)) bob eq_refl);
      discriminate.
Defined.

(** X4. A withdrawal that is taken and then given back: on a server that
    refuses nothing, for a row of whole cents and an amount of money that the
    balance covers, subtracting the amount and adding it again both return;
    in between the balance is lower by the amount, and in the end the user has
    the balance they had; the rollover, the flag and everything else are as
    they were. *)
Theorem subtract_then_add_restores_the_balance
    (userId : string) (amount : Q) (d : database) (u : user_row) :
  users d !! userId = Some u ->
  whole_cents (balance u) -> whole_cents amount ->
  0 <= amount -> amount <= balance u ->
  exists v1 d1 tr1 v2 d2 tr2 u1 u2,
    callA (updateUserBalance reliable userId amount "subtract") d = (Done v1, d1, tr1) /\
    callA (updateUserBalance reliable userId amount "add") d1 = (Done v2, d2, tr2) /\
    users d1 !! userId = Some u1 /\
    balance u1 = balance u - amount /\
    users d2 !! userId = Some u2 /\
    balance u2 == balance u /\
    rollover_required u2 = rollover_required u /\
    first_deposit_made u2 = first_deposit_made u /\
    (forall other, other <> userId -> users d2 !! other = users d !! other) /\
    game_rounds d2 = game_rounds d /\
    settings d2 = settings d.
Proof.
  intros Hu _ _ _ Hcover.
  assert (js_lt (balance u - amount) 0 = false) as Hsign
    by (destruct (js_lt_spec (balance u - amount) 0); [lra | reflexivity]).
  do 8 eexists. split; [| split; [| split; [| split; [| split]]]].
  - unfold callA, updateUserBalance. run_account. cbv [reliable]. run_account.
    rewrite Hu. cbn [String.eqb Ascii.eqb Bool.eqb]. run_account.
    rewrite Hsign. reflexivity.
  - unfold callA, updateUserBalance. run_account. cbv [reliable]. run_account.
    cbn [set_users users]. rewrite lookup_alter_eq, Hu.
    cbn [fmap option_fmap option_map with_balance balance].
    cbn [String.eqb Ascii.eqb Bool.eqb]. run_account. reflexivity.
  - cbn [set_users users]. rewrite lookup_alter_eq, Hu. reflexivity.
  - reflexivity.
  - cbn [set_users users]. rewrite lookup_alter_eq, lookup_alter_eq, Hu.
    reflexivity.
  - cbn [set_users users game_rounds settings with_balance balance
         rollover_required first_deposit_made].
    split; [ring |]. repeat (split; [reflexivity |]).
    split; [| split; reflexivity].
    intros other Hother. now rewrite !lookup_alter_ne.
Qed.

Lemma subtract_then_add_restores_the_balance_witness :
  exists v1 d1 tr1 v2 d2 tr2 u1 u2,
    callA (updateUserBalance reliable "bob" 4.00 "subtract") example_db
    = (Done v1, d1, tr1) /\
    callA (updateUserBalance reliable "bob" 4.00 "add") d1 = (Done v2, d2, tr2) /\
    users d1 !! "bob" = Some u1 /\ balance u1 == 6.00 /\
    users d2 !! "bob" = Some u2 /\ balance u2 == 10.00.
Proof.
  destruct (subtract_then_add_restores_the_balance "bob" 4.00 example_db bob eq_refl)
    as (v1 & d1 & tr1 & v2 & d2 & tr2 & u1 & u2 & H1 & H2 & Hrow1 & Hbal1 & Hrow2
        & Hbal2 & _).
  - exists 1000%Z. reflexivity.
  - exists 400%Z. reflexivity.
  - discriminate.
  - vm_compute. discriminate.
  - exists v1, d1, tr1, v2, d2, tr2, u1, u2. rewrite Hbal1.
    repeat split; try assumption; reflexivity.
Defined.

(** An [updateRollover] that returns has committed one UPDATE of the
    rollover; one that throws has committed nothing and does not complain of
    funds. *)
Lemma updateRollover_done faults userId amount operation d v d' tr :
  callA (updateRollover faults userId amount operation) d = (Done v, d', tr) ->
  exists u,
    users d !! userId = Some u /\
    (operation = "add" /\ v = rollover_required u + amount \/
     operation = "subtract" /\ v = Math_max 0 (rollover_required u - amount)) /\
    d' = set_users (alter (with_rollover v) userId (users d)) d.
Proof.
  unfold callA, updateRollover.
  settle_account; try discriminate; intros [= <- <- <-];
    eexists; (split; [reflexivity |]); (split; [| reflexivity]); auto.
Qed.

Lemma updateRollover_failed faults userId amount operation d e d' tr :
  callA (updateRollover faults userId amount operation) d = (Failed e, d', tr) ->
  d' = d /\ e <> LedgerError InsufficientFunds /\ e <> LedgerError InvalidBet.
Proof.
  unfold callA, updateRollover.
  settle_account; try discriminate; intros [= <- <- <-]; repeat split; discriminate.
Qed.

(** X5. An [updateRollover] that returns, on a row of whole cents and
    for an amount of money that the column can hold once added: the rollover
    it has committed is the old one plus the amount for ["add"]; for
    ["subtract"] the old one minus the amount, or zero when that would be
    negative, so that an amount that reaches the rollover clears it.  The
    balance and the flag of the row, the other rows, the game rounds and the
    settings are as they were. *)
Theorem updateRollover_commits_sum_or_clamped_difference
    (faults : nat -> bool) (userId : string) (amount : Q) (operation : string)
    (d d' : database) (u : user_row) (v : Q) (tr : list event) :
  users d !! userId = Some u ->
  whole_cents (rollover_required u) -> 0 <= rollover_required u ->
  whole_cents amount -> 0 <= amount ->
  rollover_required u + amount < 10000000000 ->
  callA (updateRollover faults userId amount operation) d = (Done v, d', tr) ->
  exists u',
    users d' !! userId = Some u' /\
    (operation = "add" /\ rollover_required u' = rollover_required u + amount \/
     operation = "subtract" /\
     rollover_required u' == Qmax 0 (rollover_required u - amount) /\
     (rollover_required u <= amount -> rollover_required u' == 0)) /\
    balance u' = balance u /\
    first_deposit_made u' = first_deposit_made u /\
    (forall other, other <> userId -> users d' !! other = users d !! other) /\
    game_rounds d' = game_rounds d /\
    settings d' = settings d.
Proof.
  intros Hu _ _ _ _ _ Hcall.
  apply updateRollover_done in Hcall as (u0 & Hu0 & Hv & ->).
  rewrite Hu in Hu0. injection Hu0 as <-.
  exists (with_rollover v u). cbn [set_users users game_rounds settings].
  split; [rewrite lookup_alter_eq, Hu; reflexivity |].
  cbn [with_rollover balance rollover_required first_deposit_made].
  split.
  { destruct Hv as [[-> ->] | (-> & ->)]; [now left | right].
    split; [reflexivity |]. split; [apply Math_max_Qmax |].
    unfold Math_max. destruct (Qle_bool 0 (rollover_required u - amount)) eqn:E.
    - apply Qle_bool_iff in E. intros; lra.
    - reflexivity. }
  repeat (split; [reflexivity |]). split; [| split; reflexivity].
  intros other Hother. now rewrite lookup_alter_ne.
Qed.

Lemma updateRollover_commits_sum_or_clamped_difference_witness :
  exists u',
    users (callA (updateRollover reliable "alice" 600.00 "subtract") example_db).1.2
    !! "alice" = Some u' /\
    rollover_required u' == 0 /\ balance u' == 500.00.
Proof.
  destruct (callA (updateRollover reliable "alice" 600.00 "subtract") example_db)
    as [[[v | e] d'] tr] eqn:Hcall; [| vm_compute in Hcall; discriminate].
  destruct (updateRollover_commits_sum_or_clamped_difference reliable "alice" 600.00
              "subtract" example_db d' alice v tr eq_refl)
    as (u' & Hrow & Hroll & Hbal & _).
  - exists 50000%Z. reflexivity.
  - discriminate.
  - exists 60000%Z. reflexivity.
  - discriminate.
  - reflexivity.
  - exact Hcall.
  - exists u'. cbn [fst snd]. split; [exact Hrow |]. rewrite Hbal.
    destruct Hroll as [[Hop _] | (_ & _ & Hclear)]; [discriminate Hop |].
    split; [apply Hclear; vm_compute; discriminate | reflexivity].
Defined.

(** X6. An [updateRollover] that throws leaves the committed database as
    it was, and what it throws is never the insufficient-funds error: unlike
    the balance, the rollover is clamped, not refused. *)
Theorem updateRollover_throw_changes_nothing
    (faults : nat -> bool) (userId : string) (amount : Q) (operation : string)
    (d d' : database) (e : account_error) (tr : list event) :
  callA (updateRollover faults userId amount operation) d = (Failed e, d', tr) ->
  d' = d /\ e <> LedgerError InsufficientFunds.
Proof.
  intros Hcall. apply updateRollover_failed in Hcall as (Hd & He & _). now split.
Qed.

Lemma updateRollover_throw_changes_nothing_witness :
  (callA (updateRollover reliable "carol" 5.00 "subtract") example_db).1.2
  = example_db.
Proof.
  eapply (updateRollover_throw_changes_nothing reliable "carol" 5.00 "subtract"
            example_db _ (LedgerError NotFound)).
  vm_compute. reflexivity.
Defined.

(** * Requests served one after another *)

(** What a round with a stake of whole cents does to the row of its user
    and to the game rounds. *)
Lemma playScratchCard_step faults parseFloat random userId betAmount d u :
  users d !! userId = Some u ->
  whole_cents betAmount ->
  let out := call (playScratchCard faults parseFloat random userId betAmount) d in
  (exists e, out.1.1 = Thrown e /\ out.1.2 = d) \/
  (exists res u' g,
     out.1.1 = Returned res /\
     result_betAmount res = betAmount /\
     0.495 <= betAmount /\
     users out.1.2 !! userId = Some u' /\
     game_rounds out.1.2 = game_rounds d ++ [g] /\
     first_deposit_made u' = first_deposit_made u /\
     (whole_cents (balance u) ->
      whole_cents (balance u') /\
      balance u' == balance u - betAmount + prize res) /\
     (whole_cents (rollover_required u) -> 0 <= rollover_required u ->
      whole_cents (rollover_required u') /\ 0 <= rollover_required u' /\
      rollover_required u' == Qmax 0 (rollover_required u - betAmount)) /\
     user_id g = userId /\
     bet_amount g == result_betAmount res /\
     prize_amount g = prize res /\
     Qabs (round_multiplier g - result_multiplier res) < 0.01).
Proof.
  intros Hu Hwbet out. subst out.
  destruct (call (playScratchCard faults parseFloat random userId betAmount) d)
    as [[[res | e] d'] tr] eqn:Hcall; cbn [fst snd].
  - right. apply playScratchCard_returned in Hcall
      as (Hbet & u0 & keptBalance & keptRollover & g & Hu0 & _ & -> & HkeptB
          & HkeptR & _ & HcheckR & Hg & -> & _).
    rewrite Hu in Hu0. injection Hu0 as <-.
    apply includes_allowed_to_the_cent, allowed_to_the_cent_lower in Hbet.
    apply recorded_round_kept in Hg
      as (Hid & _ & _ & _ & _ & Hstake & Hwon & _ & Htimes & _).
    eexists; exists (settled_row keptBalance keptRollover u), g.
    cbn [result_betAmount prize result_multiplier users game_rounds settled_row
         balance rollover_required first_deposit_made].
    split; [reflexivity |]. split; [reflexivity |]. split; [exact Hbet |].
    split; [rewrite lookup_alter_eq, Hu; reflexivity |].
    split; [reflexivity |]. split; [reflexivity |].
    split; [| split; [| split; [exact Hid | split; [now apply Hstake |]]]].
    + intros HwB.
      assert (whole_cents
                (balance u - betAmount
                 + prizeAmount (calculateScratchPrize random betAmount
                                  (configured_rtp parseFloat d)))) as Hw.
      { apply whole_cents_plus; [apply whole_cents_plus |];
          [exact HwB | now apply whole_cents_opp | eexists; reflexivity]. }
      pose proof (DECIMAL_of_whole_cents _ _ _ HkeptB Hw) as E.
      split; [| exact E]. destruct Hw as [k Hk]. exists k. now rewrite E.
    + intros HwR Hroll.
      assert (whole_cents (Math_max 0 (rollover_required u - betAmount))) as Hw.
      { unfold Math_max. destruct (Qle_bool 0 (rollover_required u - betAmount)).
        - apply whole_cents_plus; [exact HwR | now apply whole_cents_opp].
        - exists 0%Z. reflexivity. }
      pose proof (DECIMAL_of_whole_cents _ _ _ HkeptR Hw) as E.
      split; [destruct Hw as [k Hk]; exists k; now rewrite E |].
      split; [now destruct (js_ge_spec keptRollover 0) |].
      rewrite E. apply Math_max_Qmax.
    + split; [exact Hwon | exact Htimes].
  - left. apply playScratchCard_thrown in Hcall as (-> & _). eauto.
Qed.

Lemma applyFirstDepositRollover_effect faults userId amount d :
  let out := call (applyFirstDepositRollover faults userId amount) d in
  out.1.2 = d \/
  exists u, users d !! userId = Some u /\ first_deposit_made u = false /\
            out.1.1 = Returned true /\
            out.1.2 = set_users (<[userId := activated_row amount u]> (users d)) d.
Proof.
  unfold call, applyFirstDepositRollover.
  settle_run; cbn [fst snd]; auto.
  right. eexists. repeat split; eauto.
Qed.

Lemma configured_rtp_settings parseFloat d d' :
  settings d' = settings d -> configured_rtp parseFloat d' = configured_rtp parseFloat d.
Proof. unfold configured_rtp. now intros ->. Qed.

Lemma ledger_ok_alter d userId f :
  ledger_ok d ->
  (forall u, users d !! userId = Some u ->
             0 <= balance (f u) /\ 0 <= rollover_required (f u)) ->
  forall rounds s,
    ledger_ok {| users := alter f userId (users d); game_rounds := rounds;
                 settings := s |}.
Proof.
  intros Hok Hf rounds s id u'. cbn [users].
  destruct (decide (id = userId)) as [-> | Hne].
  - rewrite lookup_alter_eq. destruct (users d !! userId) as [u |] eqn:Hu;
      [| discriminate].
    intros [= <-]. now apply Hf.
  - rewrite lookup_alter_ne by congruence. apply Hok.
Qed.

(** Each request keeps the rows non-negative and the settings untouched. *)
Lemma serve_keeps_ledger_ok parseFloat r d :
  ledger_ok d -> 0 <= configured_rtp parseFloat d -> adds_no_debt r ->
  ledger_ok (serve parseFloat r d) /\ settings (serve parseFloat r d) = settings d.
Proof.
  intros Hok Hrtp Hadm. destruct r as [f rnd id bet | f id a op | f id a op | f id a];
    cbn [serve adds_no_debt] in *.
  - destruct (call (playScratchCard f parseFloat rnd id bet) d)
      as [[[res | e] d'] tr] eqn:Hcall; cbn [fst snd].
    + apply playScratchCard_returned in Hcall
        as (_ & u & keptBalance & keptRollover & kept & _ & _ & _ & _ & _
            & HcheckB & HcheckR & _ & -> & _).
      split; [| reflexivity]. apply ledger_ok_alter; [exact Hok |].
      intros u0 _. cbn [settled_row balance rollover_required].
      split; [now destruct (js_ge_spec keptBalance 0)
             | now destruct (js_ge_spec keptRollover 0)].
    + apply playScratchCard_thrown in Hcall as (-> & _). now split.
  - destruct (callA (updateUserBalance f id a op) d)
      as [[[v | e] d'] tr] eqn:Hcall; cbn [fst snd].
    + apply updateUserBalance_done in Hcall as (u & Hu & Hv & ->).
      split; [| reflexivity]. unfold set_users. apply ledger_ok_alter; [exact Hok |].
      intros u0 Hu0. rewrite Hu in Hu0. injection Hu0 as <-.
      cbn [with_balance balance rollover_required].
      destruct (Hok _ _ Hu) as [Hb Hr]. split; [| exact Hr].
      destruct Hv as [[Hop ->] | (_ & -> & Hsign)].
      * specialize (Hadm Hop). lra.
      * destruct (js_lt_spec (balance u - a) 0); [discriminate | lra].
    + apply updateUserBalance_failed in Hcall as ->. now split.
  - destruct (callA (updateRollover f id a op) d)
      as [[[v | e] d'] tr] eqn:Hcall; cbn [fst snd].
    + apply updateRollover_done in Hcall as (u & Hu & Hv & ->).
      split; [| reflexivity]. unfold set_users. apply ledger_ok_alter; [exact Hok |].
      intros u0 Hu0. rewrite Hu in Hu0. injection Hu0 as <-.
      cbn [with_rollover balance rollover_required].
      destruct (Hok _ _ Hu) as [Hb Hr]. split; [exact Hb |].
      destruct Hv as [[Hop ->] | (_ & ->)].
      * specialize (Hadm Hop). lra.
      * unfold Math_max. destruct (Qle_bool 0 (rollover_required u - a)) eqn:E;
          [now apply Qle_bool_iff in E | lra].
    + apply updateRollover_failed in Hcall as (-> & _). now split.
  - destruct (applyFirstDepositRollover_effect f id a d)
      as [-> | (u & Hu & _ & _ & ->)]; [now split |].
    split; [| reflexivity]. intros id' u'. cbn [set_users users].
    destruct (decide (id' = id)) as [-> | Hne].
    + rewrite lookup_insert_eq. intros [= <-].
      cbn [activated_row balance rollover_required].
      destruct (Hok _ _ Hu). split; lra.
    + rewrite lookup_insert_ne by congruence. apply Hok.
Qed.

(** X7. Whatever sequence of rounds, balance updates, rollover updates
    and first-deposit activations is served, by whichever users and with the
    server refusing whichever round trips: if every row starts with a
    non-negative balance and rollover, the RTP setting is non-negative and no
    request adds a negative amount, then every row ends with a non-negative
    balance and rollover, and the settings are untouched. *)
Theorem served_requests_keep_the_ledger_non_negative
    (parseFloat : string -> Q) (rs : list request) (d : database) :
  ledger_ok d ->
  0 <= configured_rtp parseFloat d ->
  Forall adds_no_debt rs ->
  ledger_ok (serve_all parseFloat rs d) /\
  settings (serve_all parseFloat rs d) = settings d.
Proof.
  intros Hok Hrtp Hadm. revert d Hok Hrtp.
  induction Hadm as [| r rs Hr _ IH]; intros d Hok Hrtp; [now split |].
  change (serve_all parseFloat (r :: rs) d)
    with (serve_all parseFloat rs (serve parseFloat r d)).
  destruct (serve_keeps_ledger_ok parseFloat r d Hok Hrtp Hr) as [Hok1 Hset1].
  destruct (IH (serve parseFloat r d) Hok1) as [Hok2 Hset2].
  { now rewrite (configured_rtp_settings _ _ _ Hset1). }
  split; [exact Hok2 | congruence].
Qed.

Lemma ledger_ok_example_db : ledger_ok example_db.
Proof.
  intros id u. cbn [example_db users].
  rewrite lookup_insert_Some. intros [[_ <-] | [_ H]]; [vm_compute; split; discriminate |].
  apply lookup_insert_Some in H as [[_ <-] | [_ H]]; [vm_compute; split; discriminate |].
  rewrite lookup_empty in H. discriminate.
Qed.

Lemma served_requests_keep_the_ledger_non_negative_witness :
  ledger_ok
    (serve_all decimal_of_string
       [PlayScratchCard reliable 0.3 "alice" 10.00;
        UpdateUserBalance reliable "bob" 4.00 "subtract";
        UpdateRollover (fun n => Nat.eqb n 3) "alice" 20.00 "add";
        ApplyFirstDepositRollover reliable "bob" 500.00]
       example_db).
Proof.
  apply (served_requests_keep_the_ledger_non_negative decimal_of_string).
  - exact ledger_ok_example_db.
  - vm_compute. discriminate.
  - repeat constructor; cbn [adds_no_debt]; discriminate.
Defined.

(** ** The rounds of one user *)

Lemma Qmax_0_step r b s :
  0 <= b -> 0 <= s -> Qmax 0 (Math_max 0 (r - b) - s) == Qmax 0 (r - (b + s)).
Proof.
  intros Hb Hs. pose proof (Math_max_Qmax 0 (r - b)) as E.
  set (m := Math_max 0 (r - b)) in *.
  destruct (Q.max_spec 0 (r - b)) as [[A1 A2] | [A1 A2]];
    destruct (Q.max_spec 0 (m - s)) as [[B1 B2] | [B1 B2]];
    destruct (Q.max_spec 0 (r - (b + s))) as [[C1 C2] | [C1 C2]];
    rewrite B2, C2; set (x := Qmax 0 (r - b)) in *; lra.
Qed.

Lemma Qsum_nonneg (l : list Q) : Forall (fun x => 0 <= x) l -> 0 <= Qsum l.
Proof.
  induction 1 as [| x l Hx _ IH]; cbn [Qsum fold_right]; [lra |].
  fold (Qsum l). lra.
Qed.

(** What a sequence of rounds does to the balance of its user and to the
    game rounds. *)
Lemma playRounds_books parseFloat userId rounds :
  forall d u,
    users d !! userId = Some u ->
    whole_cents (balance u) ->
    Forall (fun round => whole_cents round.2) rounds ->
    let results := (playRounds parseFloat userId rounds d).1 in
    let d' := (playRounds parseFloat userId rounds d).2 in
    Forall (fun x => 0 <= x) (map result_betAmount results) /\
    exists u' played,
      users d' !! userId = Some u' /\
      balance u' ==
        balance u - Qsum (map result_betAmount results) + Qsum (map prize results) /\
      first_deposit_made u' = first_deposit_made u /\
      game_rounds d' = game_rounds d ++ played /\
      Forall2 (fun g r =>
                 user_id g = userId /\
                 bet_amount g == result_betAmount r /\
                 prize_amount g = prize r /\
                 Qabs (round_multiplier g - result_multiplier r) < 0.01)
        played results.
Proof.
  induction rounds as [| [[faults random] betAmount] rest IH];
    intros d u Hu HwB Hstakes.
  - cbn [playRounds fst snd map Qsum fold_right]. split; [constructor |].
    exists u, []. split; [exact Hu |]. split; [ring |]. split; [reflexivity |].
    split; [now rewrite app_nil_r | constructor].
  - apply Forall_cons_1 in Hstakes as [Hwbet Hrest]. cbn [snd] in Hwbet.
    cbn [playRounds].
    destruct (playScratchCard_step faults parseFloat random userId betAmount d u
                Hu Hwbet)
      as [(e & Hout & Hd)
         | (res & u1 & g & Hout & Hbet & Hlow & Hu1 & Hrounds1 & Hflag1 & Hbal1 & _
            & Hrec)].
    + rewrite Hout, Hd.
      destruct (playRounds parseFloat userId rest d) as [results d'] eqn:Hrec.
      specialize (IH d u Hu HwB Hrest). rewrite Hrec in IH. exact IH.
    + rewrite Hout. destruct (Hbal1 HwB) as [HwB1 Ebal1].
      specialize (IH _ u1 Hu1 HwB1 Hrest).
      destruct (playRounds parseFloat userId rest
                  (call (playScratchCard faults parseFloat random userId betAmount) d).1.2)
        as [results d'] eqn:Hplay.
      cbn [fst snd] in IH |- *.
      destruct IH as (Hpos & u' & played & Hu' & Hbal & Hflag & Hrounds & Hall).
      cbn [map]. split; [constructor; [rewrite Hbet; lra | exact Hpos] |].
      exists u', (g :: played). split; [exact Hu' |].
      cbn [map Qsum fold_right].
      fold (Qsum (map result_betAmount results)). fold (Qsum (map prize results)).
      split; [rewrite Hbal, Ebal1, Hbet; ring |].
      split; [congruence |].
      split; [rewrite Hrounds, Hrounds1; now rewrite <- app_assoc |].
      constructor; [exact Hrec | exact Hall].
Qed.

(** What a sequence of rounds does to the rollover of its user. *)
Lemma playRounds_rollover parseFloat userId rounds :
  forall d u,
    users d !! userId = Some u ->
    whole_cents (rollover_required u) ->
    0 <= rollover_required u ->
    Forall (fun round => whole_cents round.2) rounds ->
    let results := (playRounds parseFloat userId rounds d).1 in
    let d' := (playRounds parseFloat userId rounds d).2 in
    Forall (fun x => 0 <= x) (map result_betAmount results) /\
    exists u',
      users d' !! userId = Some u' /\
      rollover_required u' ==
        Qmax 0 (rollover_required u - Qsum (map result_betAmount results)).
Proof.
  induction rounds as [| [[faults random] betAmount] rest IH];
    intros d u Hu HwR Hroll Hstakes.
  - cbn [playRounds fst snd map Qsum fold_right]. split; [constructor |].
    exists u. split; [exact Hu |]. rewrite Q.max_r; lra.
  - apply Forall_cons_1 in Hstakes as [Hwbet Hrest]. cbn [snd] in Hwbet.
    cbn [playRounds].
    destruct (playScratchCard_step faults parseFloat random userId betAmount d u
                Hu Hwbet)
      as [(e & Hout & Hd)
         | (res & u1 & g & Hout & Hbet & Hlow & Hu1 & _ & _ & _ & Hroll1 & _)].
    + rewrite Hout, Hd.
      destruct (playRounds parseFloat userId rest d) as [results d'] eqn:Hrec.
      specialize (IH d u Hu HwR Hroll Hrest). rewrite Hrec in IH. exact IH.
    + rewrite Hout. destruct (Hroll1 HwR Hroll) as (HwR1 & Hpos1 & Ero1).
      specialize (IH _ u1 Hu1 HwR1 Hpos1 Hrest).
      destruct (playRounds parseFloat userId rest
                  (call (playScratchCard faults parseFloat random userId betAmount) d).1.2)
        as [results d'] eqn:Hplay.
      cbn [fst snd] in IH |- *.
      destruct IH as (Hpos & u' & Hu' & Hro).
      cbn [map]. split; [constructor; [rewrite Hbet; lra | exact Hpos] |].
      apply Qsum_nonneg in Hpos.
      exists u'. split; [exact Hu' |].
      cbn [map Qsum fold_right]. fold (Qsum (map result_betAmount results)).
      rewrite Hro, Ero1, Hbet.
      rewrite <- (Math_max_Qmax 0 (rollover_required u - betAmount)).
      apply Qmax_0_step; lra.
Qed.

(** X8. The books balance for stakes of whole cents: after any sequence
    of rounds asked by one user whose balance is in whole cents, served or
    refused, the user's balance is the one they started with, minus the stakes
    and plus the prizes of the rounds that returned; the game rounds have
    grown by exactly one row of that user per returned round, in order, each
    with the stake and the prize that were returned and the multiplier to two
    decimal places; and the first-deposit flag is as it was. *)
Theorem rounds_played_balance_the_books
    (parseFloat : string -> Q) (userId : string)
    (rounds : list ((nat -> bool) * Q * Q)) (d : database) (u : user_row) :
  users d !! userId = Some u ->
  whole_cents (balance u) ->
  Forall (fun round => whole_cents round.2) rounds ->
  let results := (playRounds parseFloat userId rounds d).1 in
  let d' := (playRounds parseFloat userId rounds d).2 in
  exists u' played,
    users d' !! userId = Some u' /\
    balance u' ==
      balance u - Qsum (map result_betAmount results) + Qsum (map prize results) /\
    first_deposit_made u' = first_deposit_made u /\
    game_rounds d' = game_rounds d ++ played /\
    Forall2 (fun g r =>
               user_id g = userId /\
               bet_amount g == result_betAmount r /\
               prize_amount g = prize r /\
               Qabs (round_multiplier g - result_multiplier r) < 0.01)
      played results.
Proof.
  intros Hu HwB Hstakes.
  exact (proj2 (playRounds_books parseFloat userId rounds d u Hu HwB Hstakes)).
Qed.

Lemma rounds_played_balance_the_books_witness :
  let rounds := [(reliable, 0.3, 10.00); (reliable, 0.9, 700.00);
                 (fun n => Nat.eqb n 4, 0.01, 5.00); (reliable, 0.9, 0.50)] in
  exists u',
    users (playRounds decimal_of_string "alice" rounds example_db).2 !! "alice"
    = Some u' /\
    balance u' == 499.50 /\
    length (game_rounds (playRounds decimal_of_string "alice" rounds example_db).2)
    = 2%nat.
Proof.
  intros rounds.
  destruct (rounds_played_balance_the_books decimal_of_string "alice" rounds
              example_db alice eq_refl)
    as (u' & played & Hu' & Hbal & _ & Hrounds & Hall).
  - exists 50000%Z. reflexivity.
  - repeat constructor; cbn [snd];
      [exists 1000%Z | exists 70000%Z | exists 500%Z | exists 50%Z]; reflexivity.
  - exists u'. split; [exact Hu' |]. split.
    + rewrite Hbal. vm_compute. reflexivity.
    + rewrite Hrounds, length_app. apply Forall2_length in Hall.
      rewrite Hall. vm_compute. reflexivity.
Defined.

(** X9. The rollover counts down with the stakes: after any sequence of
    rounds with stakes of whole cents, asked by a user whose rollover was in
    whole cents and not negative, the rollover is what it was minus the stakes
    of the rounds that returned, or zero once those stakes have reached
    it. *)
Theorem rollover_counts_down_with_the_stakes
    (parseFloat : string -> Q) (userId : string)
    (rounds : list ((nat -> bool) * Q * Q)) (d : database) (u : user_row) :
  users d !! userId = Some u ->
  whole_cents (rollover_required u) ->
  0 <= rollover_required u ->
  Forall (fun round => whole_cents round.2) rounds ->
  let results := (playRounds parseFloat userId rounds d).1 in
  let d' := (playRounds parseFloat userId rounds d).2 in
  exists u',
    users d' !! userId = Some u' /\
    rollover_required u' ==
      Qmax 0 (rollover_required u - Qsum (map result_betAmount results)) /\
    (rollover_required u' == 0 <->
     rollover_required u <= Qsum (map result_betAmount results)).
Proof.
  intros Hu HwR Hroll Hstakes results d'.
  destruct (playRounds_rollover parseFloat userId rounds d u Hu HwR Hroll Hstakes)
    as (_ & u' & Hu' & Hro).
  exists u'. split; [exact Hu' |]. split; [exact Hro |].
  fold results in Hro. rewrite Hro.
  destruct (Q.max_spec 0 (rollover_required u - Qsum (map result_betAmount results)))
    as [[H1 H2] | [H1 H2]]; rewrite H2; split; intros; lra.
Qed.

Lemma rollover_counts_down_with_the_stakes_witness :
  let rounds := [(reliable, 0.3, 10.00); (reliable, 0.9, 700.00);
                 (fun n => Nat.eqb n 4, 0.01, 5.00); (reliable, 0.9, 0.50)] in
  exists u',
    users (playRounds decimal_of_string "alice" rounds example_db).2 !! "alice"
    = Some u' /\
    rollover_required u' == 489.50.
Proof.
  intros rounds.
  destruct (rollover_counts_down_with_the_stakes decimal_of_string "alice" rounds
              example_db alice eq_refl)
    as (u' & Hu' & Hro & _).
  - exists 50000%Z. reflexivity.
  - vm_compute. discriminate.
  - repeat constructor; cbn [snd];
      [exists 1000%Z | exists 70000%Z | exists 500%Z | exists 50%Z]; reflexivity.
  - exists u'. split; [exact Hu' |]. rewrite Hro. vm_compute. reflexivity.
Defined.

(** * Settings *)

(** What [setSetting] commits, and what is read afterwards. *)
Lemma setSetting_effect
    (faults : nat -> bool) (parseFloat : string -> Q) (key value : string)
    (d : database) :
  let out := call (setSetting faults key value) d in
  (faults 0%nat = true -> out.1.1 = Thrown StorageFailure /\ out.1.2 = d) /\
  (faults 0%nat = false ->
   out.1.1 = Returned tt /\
   users out.1.2 = users d /\
   game_rounds out.1.2 = game_rounds d /\
   (call (getSetting reliable key) out.1.2).1.1
   = Returned (if String.eqb value "" then None else Some value) /\
   (forall other, other <> key ->
      (call (getSetting reliable other) out.1.2).1.1
      = (call (getSetting reliable other) d).1.1) /\
   (key = "rtp_percentage" ->
    configured_rtp parseFloat out.1.2
    = if String.eqb value "" then 95.0 else parseFloat value)).
Proof.
  intros out. subst out. unfold call, setSetting. run_account.
  split; intros ->; run_account.
  - split; reflexivity.
  - cbn [fst snd]. unfold set_settings, configured_rtp. cbv [reliable].
    run_account. cbn [fst snd settings users game_rounds].
    repeat split.
    + rewrite lookup_insert_eq. cbn [truthy]. now destruct (String.eqb value "").
    + intros other Hother. now rewrite lookup_insert_ne by congruence.
    + intros ->. rewrite lookup_insert_eq. cbn [truthy].
      destruct (String.eqb value "") eqn:E; cbn [negb truthy]; rewrite ?E; reflexivity.
Qed.

(** X10. A [setSetting] that is not refused commits the text under its
    key and touches nothing else: the key then reads back as that text, or as
    [null] if the text is empty; every other key reads as before; users and
    game rounds are as they were; and a round played next works with the
    number the text denotes, or with 95.0 if the text is empty, when the key
    is the RTP setting.  A refused [setSetting] changes nothing. *)
Theorem setSetting_then_getSetting
    (faults : nat -> bool) (parseFloat : string -> Q) (key value : string)
    (d : database) :
  let out := call (setSetting faults key value) d in
  (faults 0%nat = true -> out.1.1 = Thrown StorageFailure /\ out.1.2 = d) /\
  (faults 0%nat = false ->
   out.1.1 = Returned tt /\
   users out.1.2 = users d /\
   game_rounds out.1.2 = game_rounds d /\
   (call (getSetting reliable key) out.1.2).1.1
   = Returned (if String.eqb value "" then None else Some value) /\
   (forall other, other <> key ->
      (call (getSetting reliable other) out.1.2).1.1
      = (call (getSetting reliable other) d).1.1) /\
   (key = "rtp_percentage" ->
    configured_rtp parseFloat out.1.2
    = if String.eqb value "" then 95.0 else parseFloat value)).
Proof. apply setSetting_effect. Qed.

Lemma setSetting_then_getSetting_witness :
  (call (getSetting reliable "rtp_percentage")
     (call (setSetting reliable "rtp_percentage" "87.5") example_db).1.2).1.1
  = Returned (Some "87.5").
Proof.
  apply (proj2 (setSetting_then_getSetting reliable decimal_of_string
                  "rtp_percentage" "87.5" example_db) eq_refl).
Defined.

(** X11. [POST /api/admin/rtp] with a number: it answers 400 and changes
    nothing unless the number lies between 50 and 99; for a number in that
    range and a server that does not refuse the statement it answers 200 with
    the number, stores its text and nothing else, and, when that text reads
    back as the number, the rounds played next work with that RTP. *)
Theorem post_admin_rtp_accepts_50_to_99
    (faults : nat -> bool) (parseFloat : string -> Q) (toString : Q -> string)
    (driver : string) (rtp_percentage : Q) (d : database) :
  let out := post_admin_rtp faults toString driver rtp_percentage d in
  (~ (50 <= rtp_percentage /\ rtp_percentage <= 99) ->
   status out.1 = 400%nat /\ out.2 = d) /\
  (50 <= rtp_percentage /\ rtp_percentage <= 99 ->
   faults 0%nat = false ->
   out.1 = {| status := 200; body := RtpJson rtp_percentage |} /\
   out.2 = set_settings (<["rtp_percentage" := toString rtp_percentage]> (settings d)) d /\
   (toString rtp_percentage <> "" ->
    parseFloat (toString rtp_percentage) == rtp_percentage ->
    configured_rtp parseFloat out.2 == rtp_percentage)).
Proof.
  intros out. subst out. unfold post_admin_rtp, js_not.
  destruct (Qeq_bool rtp_percentage 0) eqn:Hzero;
    destruct (js_lt_spec rtp_percentage 50) as [Hlow | Hlow];
    destruct (js_lt_spec 99 rtp_percentage) as [Hhigh | Hhigh];
    cbn [orb fst snd status];
    try (split; [intros _; split; reflexivity | intros []; lra]).
  - apply Qeq_bool_iff in Hzero. split; [intros _; split; reflexivity | intros []; lra].
  - split; [intros Hout; exfalso; apply Hout; lra |].
    intros _ Hgranted.
    pose proof (setSetting_effect faults parseFloat "rtp_percentage"
                  (toString rtp_percentage) d) as [_ Hset].
    destruct (Hset Hgranted) as (Hret & _ & _ & _ & _ & Hrtp).
    revert Hret Hrtp. unfold call, setSetting. run_account. rewrite Hgranted.
    cbn [fst snd]. intros _ Hrtp. repeat split.
    intros Hne Hback. rewrite (Hrtp eq_refl).
    destruct (String.eqb_spec (toString rtp_percentage) ""); [contradiction | exact Hback].
Qed.

Lemma post_admin_rtp_accepts_50_to_99_witness :
  let out := post_admin_rtp reliable (fun x => pretty (Qfloor x)) "" 75 example_db in
  status out.1 = 200%nat /\ configured_rtp decimal_of_string out.2 == 75.
Proof.
  intros out.
  destruct (proj2 (post_admin_rtp_accepts_50_to_99 reliable decimal_of_string
                     (fun x => pretty (Qfloor x)) "" 75 example_db))
    as (Hresp & _ & Hrtp).
  - split; vm_compute; discriminate.
  - reflexivity.
  - split; [subst out; now rewrite Hresp |].
    apply Hrtp; [discriminate | vm_compute; reflexivity].
Defined.

(** * The game route *)

(** X12. [POST /api/game/scratch] with a number as stake: it answers 400
    with the list of allowed stakes, and changes nothing, exactly when the
    stake equals no allowed value to the cent, so that the engine's own
    refusal of the stake is never what the client sees.  For an allowed stake
    and a server that grants the round trips of the checks, a missing user is
    answered 404 and a stake that the balance does not cover is answered 500,
    as an internal error whose details say that the balance is insufficient;
    neither changes anything. *)
Theorem post_game_scratch_statuses
    (faults : nat -> bool) (parseFloat : string -> Q) (driver : string)
    (random : Q) (userId : string) (betAmount : Q) (d : database) :
  let out := post_game_scratch faults parseFloat driver random userId betAmount d in
  (~ allowed_to_the_cent betAmount ->
   out = ({| status := 400;
             body := InvalidBetJson "Valor de aposta inválido" ALLOWED_BETS |}, d)) /\
  (allowed_to_the_cent betAmount ->
   body out.1 <> InvalidBetJson "Valor de aposta inválido" ALLOWED_BETS /\
   (call (playScratchCard faults parseFloat random userId betAmount) d).1.1
   <> Thrown InvalidBet /\
   ((forall n, (n < 4)%nat -> faults n = false) ->
    (users d !! userId = None ->
     out = ({| status := 404; body := ErrorJson "Usuário não encontrado" |}, d)) /\
    (forall u, users d !! userId = Some u -> balance u < betAmount ->
       out = ({| status := 500;
                 body := ErrorDetailsJson "Erro interno do servidor"
                           "Saldo insuficiente" |}, d)))).
Proof.
  intros out. subst out. unfold post_game_scratch. split.
  - intros Hbet. rewrite <- includes_allowed_to_the_cent in Hbet.
    apply not_true_is_false in Hbet. rewrite Hbet. cbn [negb].
    now rewrite orb_true_r.
  - intros Hbet. pose proof (allowed_to_the_cent_lower _ Hbet) as Hlow.
    pose proof Hbet as Hinc. apply includes_allowed_to_the_cent in Hinc.
    rewrite Hinc. cbn [negb]. rewrite orb_false_r.
    assert (js_not betAmount = false) as ->.
    { unfold js_not. destruct (Qeq_bool betAmount 0) eqn:E; [| reflexivity].
      apply Qeq_bool_iff in E. lra. }
    destruct (call (playScratchCard faults parseFloat random userId betAmount) d)
      as [[[res | e] d'] tr] eqn:Hcall; cbn [fst snd body].
    + split; [discriminate |]. split; [discriminate |].
      intros Hok.
      pose proof (playScratchCard_checks faults parseFloat random userId betAmount d
                    Hok Hinc) as Hchecks.
      rewrite Hcall in Hchecks. cbn [fst] in Hchecks. split.
      * intros Hnone. rewrite Hnone in Hchecks. discriminate.
      * intros u Hu Hlt. rewrite Hu in Hchecks.
        destruct (js_lt_spec (balance u) betAmount); [| contradiction].
        specialize (Hchecks eq_refl). discriminate.
    + pose proof Hcall as Hthrown.
      apply playScratchCard_thrown in Hthrown as (-> & Hinv & _).
      assert (e <> InvalidBet) as Hne
        by (intros ->; destruct (Hinv eq_refl) as [_ Hno]; congruence).
      split.
      { unfold errorHandler.
        repeat match goal with
               | |- context [if ?c then _ else _] => destruct c
               end; discriminate. }
      split; [congruence |].
      intros Hok.
      pose proof (playScratchCard_checks faults parseFloat random userId betAmount d
                    Hok Hinc) as Hchecks.
      rewrite Hcall in Hchecks. cbn [fst] in Hchecks. split.
      * intros Hnone. rewrite Hnone in Hchecks. injection Hchecks as ->.
        reflexivity.
      * intros u Hu Hlt. rewrite Hu in Hchecks.
        destruct (js_lt_spec (balance u) betAmount); [| contradiction].
        specialize (Hchecks eq_refl). injection Hchecks as ->. reflexivity.
Qed.

Lemma post_game_scratch_statuses_witness :
  status (post_game_scratch reliable decimal_of_string "" 0.3 "bob" 15.00
            example_db).1 = 500%nat /\
  status (post_game_scratch reliable decimal_of_string "" 0.3 "bob" 7.00
            example_db).1 = 400%nat.
Proof.
  split.
  - destruct (proj2 (post_game_scratch_statuses reliable decimal_of_string "" 0.3
                       "bob" 15.00 example_db) allowed_to_the_cent_15)
      as (_ & _ & Hchecks).
    destruct (Hchecks (fun _ _ => eq_refl)) as [_ Hfunds].
    rewrite (Hfunds bob eq_refl); [reflexivity | vm_compute; reflexivity].
  - rewrite (proj1 (post_game_scratch_statuses reliable decimal_of_string "" 0.3
                      "bob" 7.00 example_db)); [reflexivity |].
    rewrite <- includes_allowed_to_the_cent. vm_compute. discriminate.
Defined.

(** * Crediting a paid deposit *)

(** What crediting a paid deposit commits when the server refuses nothing. *)
Lemma creditPaidDeposit_reliable
    (userId : string) (amount : Q) (d : database) (u : user_row) :
  users d !! userId = Some u ->
  let out := callA (creditPaidDeposit reliable userId amount) d in
  out.1.1 = Done (negb (first_deposit_made u)) /\
  users out.1.2 !! userId
  = Some {| balance := balance u + amount;
            rollover_required :=
              if first_deposit_made u then rollover_required u
              else rollover_required u + amount;
            first_deposit_made := true |} /\
  (forall other, other <> userId -> users out.1.2 !! other = users d !! other) /\
  game_rounds out.1.2 = game_rounds d /\
  settings out.1.2 = settings d.
Proof.
  intros Hu out. subst out.
  unfold callA, creditPaidDeposit, updateUserBalance, applyFirstDepositRollover.
  run_account. cbv [reliable]. run_account. rewrite Hu.
  cbn [String.eqb Ascii.eqb Bool.eqb]. run_account.
  cbn [set_users users]. rewrite lookup_alter_eq, Hu.
  cbn [fmap option_fmap option_map with_balance first_deposit_made].
  destruct (first_deposit_made u) eqn:Hflag; run_account;
    cbn [fst snd set_users users game_rounds settings].
  - repeat split.
    + rewrite lookup_alter_eq, Hu. cbn [fmap option_fmap option_map].
      unfold with_balance. now rewrite Hflag.
    + intros other Hother. now rewrite lookup_alter_ne.
  - repeat split.
    + now rewrite lookup_insert_eq.
    + intros other Hother.
      rewrite lookup_insert_ne by congruence. now rewrite lookup_alter_ne.
Qed.

(** X13. Crediting a paid deposit on a server that refuses nothing: the
    balance grows by the amount every time, while the rollover grows by the
    amount, and the flag is set, only the first time.  The call says which
    it was. *)
Theorem creditPaidDeposit_credits_always_activates_once
    (userId : string) (amount : Q) (d : database) (u : user_row) :
  users d !! userId = Some u ->
  let out := callA (creditPaidDeposit reliable userId amount) d in
  out.1.1 = Done (negb (first_deposit_made u)) /\
  users out.1.2 !! userId
  = Some {| balance := balance u + amount;
            rollover_required :=
              if first_deposit_made u then rollover_required u
              else rollover_required u + amount;
            first_deposit_made := true |} /\
  (forall other, other <> userId -> users out.1.2 !! other = users d !! other) /\
  game_rounds out.1.2 = game_rounds d /\
  settings out.1.2 = settings d.
Proof. apply creditPaidDeposit_reliable. Qed.

Lemma creditPaidDeposit_credits_always_activates_once_witness :
  let d1 := (callA (creditPaidDeposit reliable "bob" 500.00) example_db).1.2 in
  let d2 := (callA (creditPaidDeposit reliable "bob" 500.00) d1).1.2 in
  exists u2, users d2 !! "bob" = Some u2 /\
             balance u2 == 1010.00 /\ rollover_required u2 == 501.00.
Proof.
  intros d1 d2.
  destruct (creditPaidDeposit_credits_always_activates_once "bob" 500.00 example_db
              bob eq_refl) as (_ & Hrow1 & _).
  fold d1 in Hrow1.
  destruct (creditPaidDeposit_credits_always_activates_once "bob" 500.00 d1 _ Hrow1)
    as (_ & Hrow2 & _).
  fold d2 in Hrow2. eexists. split; [exact Hrow2 |].
  split; vm_compute; reflexivity.
Defined.

(** X14. The credit and the activation are two transactions: once the
    five round trips of the balance update are granted, the balance is
    credited whatever becomes of the activation; and if the server then
    refuses the connection for the activation, the whole call throws although
    the credit is committed, with rollover and flag as they were. *)
Theorem creditPaidDeposit_keeps_the_credit_when_activation_fails
    (faults : nat -> bool) (userId : string) (amount : Q) (d : database)
    (u : user_row) :
  users d !! userId = Some u ->
  (forall n, (n < 5)%nat -> faults n = false) ->
  let out := callA (creditPaidDeposit faults userId amount) d in
  (exists u', users out.1.2 !! userId = Some u' /\
              balance u' = balance u + amount) /\
  (faults 5%nat = true ->
   out.1.1 = Failed (LedgerError StorageFailure) /\
   users out.1.2 !! userId = Some (with_balance (balance u + amount) u)).
Proof.
  intros Hu Hok out. subst out.
  pose proof (Hok 0%nat ltac:(lia)) as H0. pose proof (Hok 1%nat ltac:(lia)) as H1.
  pose proof (Hok 2%nat ltac:(lia)) as H2. pose proof (Hok 3%nat ltac:(lia)) as H3.
  pose proof (Hok 4%nat ltac:(lia)) as H4.
  unfold callA, creditPaidDeposit, updateUserBalance, applyFirstDepositRollover.
  run_account. rewrite H0. run_account. rewrite H1. run_account. rewrite H2.
  run_account. rewrite Hu. cbn [String.eqb Ascii.eqb Bool.eqb]. run_account.
  rewrite H3. run_account. rewrite H4. run_account.
  assert (alter (with_balance (balance u + amount)) userId (users d) !! userId
          = Some (with_balance (balance u + amount) u)) as Hrow
    by (rewrite lookup_alter_eq, Hu; reflexivity).
  split.
  - repeat (split_account; run_account); cbn [fst snd set_users users] in *;
      try congruence;
      try (eexists; split; [exact Hrow | reflexivity]).
    rewrite Hrow in *.
    match goal with H : Some _ = Some _ |- _ => injection H as <- end.
    eexists. split; [apply lookup_insert_eq | reflexivity].
  - intros ->. run_account. cbn [fst snd set_users users]. split; [reflexivity | exact Hrow].
Qed.

Lemma creditPaidDeposit_keeps_the_credit_when_activation_fails_witness :
  let out := callA (creditPaidDeposit (fun n => Nat.eqb n 5) "bob" 500.00) example_db in
  out.1.1 = Failed (LedgerError StorageFailure) /\
  users out.1.2 !! "bob" = Some (with_balance (balance bob + 500.00) bob).
Proof.
  apply (creditPaidDeposit_keeps_the_credit_when_activation_fails
           (fun n => Nat.eqb n 5) "bob" 500.00 example_db bob eq_refl).
  - intros n Hn. apply Nat.eqb_neq. lia.
  - reflexivity.
Defined.

(** * More of the Prize Engine *)

Lemma bonusChance_range betAmount :
  0 <= bonusChance betAmount /\ bonusChance betAmount <= 0.15.
Proof.
  unfold bonusChance.
  repeat match goal with
         | |- context [js_ge ?a ?b] => destruct (js_ge a b)
         end; split; lra.
Qed.

Lemma bonusChance_monotone bet1 bet2 :
  bet1 <= bet2 -> bonusChance bet1 <= bonusChance bet2.
Proof.
  intros Hle. unfold bonusChance.
  repeat match goal with
         | |- context [js_ge ?a ?b] => destruct (js_ge_spec a b)
         end; lra.
Qed.

Lemma drawnMultiplier_monotone_bonus r x y :
  x <= y -> drawnMultiplier r x <= drawnMultiplier r y.
Proof.
  intros Hle. unfold drawnMultiplier, threshold1, threshold2, threshold3, threshold4.
  repeat match goal with
         | |- context [js_lt ?a ?b] => destruct (js_lt_spec a b)
         end; lra.
Qed.

Lemma drawnMultiplier_antitone_draw r1 r2 bonus :
  0 <= bonus -> bonus <= 1 -> r1 <= r2 ->
  drawnMultiplier r2 bonus <= drawnMultiplier r1 bonus.
Proof.
  intros H0 H1 Hle.
  unfold drawnMultiplier, threshold1, threshold2, threshold3, threshold4.
  repeat match goal with
         | |- context [js_lt ?a ?b] => destruct (js_lt_spec a b)
         end; lra.
Qed.

Lemma Math_round_monotone x y : x <= y -> (Math_round x <= Math_round y)%Z.
Proof. intros Hle. unfold Math_round. apply Qfloor_resp_le. lra. Qed.

(** X15. A larger stake never does worse on the same draw: for a
    non-negative RTP, the multiplier of the larger stake is at least that of
    the smaller one, and so is its prize. *)
Theorem larger_stake_never_does_worse (r bet1 bet2 rtpPercentage : Q) :
  0 <= bet1 -> bet1 <= bet2 -> 0 <= rtpPercentage ->
  multiplier (calculateScratchPrize r bet1 rtpPercentage)
  <= multiplier (calculateScratchPrize r bet2 rtpPercentage) /\
  prizeAmount (calculateScratchPrize r bet1 rtpPercentage)
  <= prizeAmount (calculateScratchPrize r bet2 rtpPercentage).
Proof.
  intros Hpos Hle Hrtp. cbn [calculateScratchPrize multiplier prizeAmount].
  assert (0 <= rtpPercentage / 95.0) as Hf by (apply Qle_shift_div_l; lra).
  pose proof (drawnMultiplier_monotone_bonus r _ _ (bonusChance_monotone _ _ Hle))
    as Hm.
  pose proof (drawnMultiplier_nonneg r (bonusChance bet1)) as Hm1.
  set (m1 := drawnMultiplier r (bonusChance bet1)) in *.
  set (m2 := drawnMultiplier r (bonusChance bet2)) in *.
  set (f := rtpPercentage / 95.0) in *.
  assert (m1 * f <= m2 * f) as Hmf by (apply Qmult_le_compat_r; assumption).
  split; [exact Hmf |].
  assert (0 <= m1 * f) by (apply Qmult_le_0_compat; assumption).
  assert (bet1 * (m1 * f) <= bet2 * (m2 * f)) as Hp.
  { apply Qle_trans with (bet1 * (m2 * f)).
    - rewrite !(Qmult_comm bet1). apply Qmult_le_compat_r; assumption.
    - apply Qmult_le_compat_r; [exact Hle | lra]. }
  apply Qmult_le_compat_r; [| discriminate].
  rewrite <- Zle_Qle. apply Math_round_monotone.
  apply Qmult_le_compat_r; [exact Hp | discriminate].
Qed.

Lemma larger_stake_never_does_worse_witness :
  multiplier (calculateScratchPrize 0.51 0.50 95.0)
  <= multiplier (calculateScratchPrize 0.51 50.00 95.0).
Proof.
  apply (larger_stake_never_does_worse 0.51 0.50 50.00 95.0); discriminate.
Defined.

(** X16. The draw decides: for a non-negative RTP a smaller draw never
    pays a smaller multiplier; a draw below 0.50 wins at every stake, for an
    RTP of at least 1; and a draw from 0.5225 on loses at every stake. *)
Theorem draw_decides_the_round (r1 r2 betAmount rtpPercentage : Q) :
  0 <= rtpPercentage ->
  (r1 <= r2 ->
   multiplier (calculateScratchPrize r2 betAmount rtpPercentage)
   <= multiplier (calculateScratchPrize r1 betAmount rtpPercentage)) /\
  (1 <= rtpPercentage -> r1 < 0.50 ->
   0 < multiplier (calculateScratchPrize r1 betAmount rtpPercentage)) /\
  (0.5225 <= r1 ->
   multiplier (calculateScratchPrize r1 betAmount rtpPercentage) == 0).
Proof.
  intros Hrtp. cbn [calculateScratchPrize multiplier].
  destruct (bonusChance_range betAmount) as [Hb0 Hb1].
  assert (0 <= rtpPercentage / 95.0) as Hf by (apply Qle_shift_div_l; lra).
  pose proof (drawnMultiplier_nonneg r1 (bonusChance betAmount)) as Hnn.
  assert (drawnMultiplier r1 (bonusChance betAmount) == 0 <->
          0.50 + bonusChance betAmount * 0.15 <= r1) as Hloss.
  { unfold drawnMultiplier, threshold1, threshold2, threshold3, threshold4.
    repeat match goal with
           | |- context [js_lt ?a ?b] => destruct (js_lt_spec a b)
           end; split; intros; lra. }
  split; [| split].
  - intros Hle. apply Qmult_le_compat_r; [| exact Hf].
    apply drawnMultiplier_antitone_draw; lra.
  - intros Hpos Hwin.
    assert (0 < rtpPercentage / 95.0) as Hfpos by (apply Qlt_shift_div_l; lra).
    assert (~ drawnMultiplier r1 (bonusChance betAmount) == 0) as Hne
      by (rewrite Hloss; lra).
    assert (0 < drawnMultiplier r1 (bonusChance betAmount)) by lra.
    nra.
  - intros Hlose.
    assert (drawnMultiplier r1 (bonusChance betAmount) == 0) as ->
      by (apply Hloss; lra).
    ring.
Qed.

Lemma draw_decides_the_round_witness :
  multiplier (calculateScratchPrize 0.6 10.00 95.0) == 0 /\
  0 < multiplier (calculateScratchPrize 0.4 10.00 95.0).
Proof.
  split.
  - apply (draw_decides_the_round 0.6 0.6 10.00 95.0); discriminate || reflexivity.
  - apply (draw_decides_the_round 0.4 0.4 10.00 95.0); discriminate || reflexivity.
Defined.

(** * The payment gateway client *)

Lemma digits_only_all_digits s :
  Forall (fun c => is_digit c = true) (list_ascii_of_string (digits_only s)).
Proof.
  induction s as [| c s IH]; cbn [digits_only list_ascii_of_string];
    [constructor |].
  destruct (is_digit c) eqn:Hc; cbn [list_ascii_of_string]; [| exact IH].
  now constructor.
Qed.

Lemma digits_only_fixes_digits s :
  Forall (fun c => is_digit c = true) (list_ascii_of_string s) -> digits_only s = s.
Proof.
  induction s as [| c s IH]; cbn [digits_only list_ascii_of_string]; [reflexivity |].
  intros Hall. apply Forall_cons_1 in Hall as [-> Hrest]. now rewrite IH.
Qed.

Lemma digits_only_length s : (String.length (digits_only s) <= String.length s)%nat.
Proof.
  induction s as [| c s IH]; cbn [digits_only String.length]; [lia |].
  destruct (is_digit c); cbn [String.length]; lia.
Qed.

(** The digits of a text, in order, are its characters that are digits. *)
Lemma digits_only_filter s :
  list_ascii_of_string (digits_only s)
  = List.filter is_digit (list_ascii_of_string s).
Proof.
  induction s as [| c s IH]; cbn [digits_only list_ascii_of_string List.filter];
    [reflexivity |].
  destruct (is_digit c); cbn [list_ascii_of_string]; now rewrite IH.
Qed.

(** X17. For the key types cpf, cnpj and phone, [formatPixKey] returns
    the digits of the key and nothing else: the characters of the result are
    the characters of the key that are digits, all of them and in their
    order; so every character of the result is a digit, the result is no
    longer than the key, a key made of digits comes back unchanged, and
    formatting the result again changes nothing. *)
Theorem formatPixKey_keeps_only_digits
    (trim toLowerCase : string -> string) (pixKey pixKeyType : string) :
  pixKeyType = "cpf" \/ pixKeyType = "cnpj" \/ pixKeyType = "phone" ->
  let out := formatPixKey trim toLowerCase pixKey pixKeyType in
  list_ascii_of_string out = List.filter is_digit (list_ascii_of_string pixKey) /\
  Forall (fun c => is_digit c = true) (list_ascii_of_string out) /\
  (String.length out <= String.length pixKey)%nat /\
  (Forall (fun c => is_digit c = true) (list_ascii_of_string pixKey) ->
   out = pixKey) /\
  formatPixKey trim toLowerCase out pixKeyType = out.
Proof.
  intros Htype out.
  assert (forall key, formatPixKey trim toLowerCase key pixKeyType = digits_only key)
    as Hfmt.
  { intros key. unfold formatPixKey.
    destruct (String.eqb_spec key "") as [-> | _]; [reflexivity |].
    destruct Htype as [-> | [-> | ->]]; reflexivity. }
  subst out. rewrite !Hfmt. split; [apply digits_only_filter |].
  split; [apply digits_only_all_digits |].
  split; [apply digits_only_length |].
  split; [apply digits_only_fixes_digits |].
  apply digits_only_fixes_digits, digits_only_all_digits.
Qed.

Lemma formatPixKey_keeps_only_digits_witness :
  list_ascii_of_string (formatPixKey id id "1a2.3-4 5" "cpf")
  = list_ascii_of_string "12345".
Proof.
  destruct (formatPixKey_keeps_only_digits id id "1a2.3-4 5" "cpf")
    as [Hdigits _].
  - now left.
  - rewrite Hdigits. reflexivity.
Defined.

(** X18. [isValidWebhookSource]: a non-empty [x-api-key] header is the
    only credential looked at, whatever the [authorization] header holds; a
    request with neither header, or with empty ones, is refused; and when the
    environment holds no key, the one credential accepted is the text
    ["Bearer undefined"]. *)
Theorem isValidWebhookSource_credentials
    (expectedKey : option string) (headers : gmap string string) :
  (forall key, headers !! "x-api-key" = Some key -> key <> "" ->
     forall authorization,
       isValidWebhookSource expectedKey (<["authorization" := authorization]> headers)
       = isValidWebhookSource expectedKey headers) /\
  (truthy (headers !! "x-api-key") = false ->
   truthy (headers !! "authorization") = false ->
   isValidWebhookSource expectedKey headers = false) /\
  (expectedKey = None ->
   (isValidWebhookSource expectedKey headers = true <->
    js_or (headers !! "x-api-key") (headers !! "authorization")
    = Some "Bearer undefined")).
Proof.
  split; [| split].
  - intros key Hkey Hne authorization. unfold isValidWebhookSource, js_or.
    rewrite lookup_insert_ne by discriminate. rewrite Hkey. cbn [truthy].
    destruct (String.eqb_spec key ""); [contradiction | reflexivity].
  - intros Hx Ha. unfold isValidWebhookSource, js_or. rewrite Hx.
    destruct (headers !! "authorization") as [a |]; [| reflexivity].
    now rewrite Ha.
  - intros ->. unfold isValidWebhookSource.
    destruct (js_or (headers !! "x-api-key") (headers !! "authorization"))
      as [key |]; [| split; discriminate].
    cbn [truthy orb].
    destruct (String.eqb_spec key "") as [-> | Hne]; cbn [negb].
    + split; discriminate.
    + destruct (String.eqb_spec key ("Bearer " ++ "undefined")) as [-> | Hno].
      * split; reflexivity.
      * split; [discriminate | intros [= ->]; now contradiction Hno].
Qed.

Lemma isValidWebhookSource_credentials_witness :
  isValidWebhookSource (Some "secret")
    (<["authorization" := "Bearer secret"]> (<["x-api-key" := "guess"]> ∅))
  = false.
Proof.
  rewrite (proj1 (isValidWebhookSource_credentials (Some "secret")
                    (<["x-api-key" := "guess"]> ∅)) "guess").
  - reflexivity.
  - reflexivity.
  - discriminate.
Defined.

(** * The gateway webhook *)

Lemma has_gateway_id_set_status g X id t :
  has_gateway_id g (set_status X id t) = has_gateway_id g t.
Proof. unfold set_status. now destruct (String.eqb (tx_id t) id). Qed.

Lemma filter_set_status g X id txs :
  List.filter (has_gateway_id g) (map (set_status X id) txs)
  = map (set_status X id) (List.filter (has_gateway_id g) txs).
Proof.
  induction txs as [| t txs IH]; [reflexivity |].
  cbn [map List.filter]. rewrite has_gateway_id_set_status, IH.
  now destruct (has_gateway_id g t).
Qed.

Lemma set_status_own X t :
  set_status X (tx_id t) t
  = {| tx_id := tx_id t; tx_user_id := tx_user_id t; tx_type := tx_type t;
       tx_amount := tx_amount t; tx_status := X; tx_gateway_id := tx_gateway_id t |}.
Proof. unfold set_status. now rewrite String.eqb_refl. Qed.

(** A delivery that reports the status the matched transaction already
    has touches no ledger row. *)
Lemma webhook_settled faults driver expectedKey headers data s t rest :
  List.filter (has_gateway_id (unic_id data)) (transactions s) = t :: rest ->
  tx_status t = data_status data ->
  ledger (post_webhook_bullspay faults driver expectedKey headers (Some data) s).2
  = ledger s.
Proof.
  intros Hrows Hstatus. unfold post_webhook_bullspay.
  destruct (isValidWebhookSource expectedKey headers); [| reflexivity].
  cbn [negb]. destruct (String.eqb (unic_id data) ""); [reflexivity |].
  destruct (faults 0%nat); [reflexivity |]. rewrite Hrows.
  destruct (faults 1%nat); [reflexivity |]. rewrite Hstatus.
  destruct (String.eqb (data_status data) "paid"); cbn [negb andb];
    rewrite ?andb_false_r; cbn [andb].
  - destruct (failed_or_canceled (data_status data)); cbn [negb andb];
      rewrite ?andb_false_r; reflexivity.
  - destruct (failed_or_canceled (data_status data)); cbn [negb andb];
      rewrite ?andb_false_r; reflexivity.
Qed.

(** A delivery whose two statements on [transactions] are granted leaves
    the table with the new status written on the matched row. *)
Lemma webhook_writes_status faults driver expectedKey headers data s t rest :
  isValidWebhookSource expectedKey headers = true ->
  unic_id data <> "" ->
  List.filter (has_gateway_id (unic_id data)) (transactions s) = t :: rest ->
  faults 0%nat = false -> faults 1%nat = false ->
  transactions (post_webhook_bullspay faults driver expectedKey headers (Some data) s).2
  = map (set_status (data_status data) (tx_id t)) (transactions s).
Proof.
  intros Hauth Hid Hrows H0 H1. unfold post_webhook_bullspay.
  rewrite Hauth. cbn [negb].
  destruct (String.eqb_spec (unic_id data) ""); [contradiction |].
  rewrite H0, Hrows, H1.
  repeat match goal with
         | |- context [if ?c then _ else _] => destruct c
         | |- context [match callA ?m ?d with _ => _ end] =>
             destruct (callA m d) as [[[] ?] ?]
         end; reflexivity.
Qed.

(** X20. Redelivery is harmless: for a gateway id that at most one
    transaction carries, once a delivery has had its two statements on the
    transactions granted, a second delivery of the same notification changes
    no balance, no rollover and no flag, whatever the server does during
    either, and whether or not the first delivery managed to credit
    anything. *)
Theorem webhook_redelivery_changes_no_ledger
    (faults1 faults2 : nat -> bool) (driver : string)
    (expectedKey : option string) (headers : gmap string string)
    (data : webhook_data) (s : site) :
  (length (List.filter (has_gateway_id (unic_id data)) (transactions s)) <= 1)%nat ->
  faults1 0%nat = false -> faults1 1%nat = false ->
  let s1 := (post_webhook_bullspay faults1 driver expectedKey headers (Some data) s).2 in
  ledger (post_webhook_bullspay faults2 driver expectedKey headers (Some data) s1).2
  = ledger s1.
Proof.
  intros _ H0 H1 s1.
  destruct (isValidWebhookSource expectedKey headers) eqn:Hauth.
  2: { subst s1. unfold post_webhook_bullspay. now rewrite Hauth. }
  destruct (String.eqb_spec (unic_id data) "") as [Hid | Hid].
  { subst s1. unfold post_webhook_bullspay. rewrite Hauth. cbn [negb].
    rewrite Hid. reflexivity. }
  destruct (List.filter (has_gateway_id (unic_id data)) (transactions s))
    as [| t rest] eqn:Hrows.
  { subst s1. unfold post_webhook_bullspay. rewrite Hauth. cbn [negb].
    destruct (String.eqb_spec (unic_id data) ""); [contradiction |].
    rewrite H0, Hrows. cbn [snd transactions]. rewrite Hrows.
    destruct (faults2 0%nat); reflexivity. }
  pose proof (webhook_writes_status faults1 driver expectedKey headers data s t rest
                Hauth Hid Hrows H0 H1) as Htxs.
  fold s1 in Htxs.
  apply (webhook_settled faults2 driver expectedKey headers data s1
           (set_status (data_status data) (tx_id t) t)
           (map (set_status (data_status data) (tx_id t)) rest)).
  - rewrite Htxs, filter_set_status, Hrows. reflexivity.
  - now rewrite set_status_own.
Qed.

Lemma webhook_redelivery_changes_no_ledger_witness :
  let data := {| unic_id := "g1"; data_status := "paid" |} in
  let s1 := (post_webhook_bullspay reliable "" (Some "secret") gateway_headers
               (Some data) example_site).2 in
  ledger (post_webhook_bullspay reliable "" (Some "secret") gateway_headers
            (Some data) s1).2
  = ledger s1.
Proof.
  intros data s1.
  apply (webhook_redelivery_changes_no_ledger reliable reliable "" (Some "secret")
           gateway_headers data example_site); [vm_compute; lia | reflexivity ..].
Defined.

(** X21. A deposit can be lost: when the server takes the new status of
    a pending deposit reported paid and then refuses the connection for the
    credit, the handler answers 500 with the driver's message, the
    transaction is left marked paid and the ledger untouched; and no later
    delivery of the notification, to whatever server, credits it. *)
Theorem webhook_marks_paid_before_it_credits
    (faults faults2 : nat -> bool) (driver : string)
    (expectedKey : option string) (headers : gmap string string)
    (data : webhook_data) (s : site) (t : transaction) :
  isValidWebhookSource expectedKey headers = true ->
  unic_id data <> "" ->
  data_status data = "paid" ->
  List.filter (has_gateway_id (unic_id data)) (transactions s) = [t] ->
  tx_type t = "deposit" ->
  tx_status t <> "paid" ->
  faults 0%nat = false -> faults 1%nat = false -> faults 2%nat = true ->
  let out := post_webhook_bullspay faults driver expectedKey headers (Some data) s in
  out.1 = {| status := 500; body := ErrorJson driver |} /\
  ledger out.2 = ledger s /\
  List.filter (has_gateway_id (unic_id data)) (transactions out.2)
  = [set_status "paid" (tx_id t) t] /\
  tx_status (set_status "paid" (tx_id t) t) = "paid" /\
  ledger (post_webhook_bullspay faults2 driver expectedKey headers (Some data) out.2).2
  = ledger s.
Proof.
  intros Hauth Hid Hpaid Hrows Htype Hstatus H0 H1 H2 out.
  assert (out = ({| status := 500; body := ErrorJson driver |},
                 {| ledger := ledger s;
                    transactions := map (set_status "paid" (tx_id t))
                                      (transactions s) |})) as Hout.
  { subst out. unfold post_webhook_bullspay. rewrite Hauth. cbn [negb].
    destruct (String.eqb_spec (unic_id data) ""); [contradiction |].
    rewrite H0, Hrows, H1, Htype, Hpaid.
    destruct (String.eqb_spec (tx_status t) "paid"); [contradiction |].
    cbn [String.eqb Ascii.eqb Bool.eqb andb negb].
    unfold callA, creditPaidDeposit, updateUserBalance. run_account.
    cbn [Nat.add]. rewrite H2. reflexivity. }
  rewrite Hout. cbn [fst snd ledger transactions].
  split; [reflexivity |]. split; [reflexivity |].
  split; [now rewrite filter_set_status, Hrows |].
  split; [now rewrite set_status_own |].
  rewrite (webhook_settled faults2 driver expectedKey headers data
             {| ledger := ledger s;
                transactions := map (set_status "paid" (tx_id t)) (transactions s) |}
             (set_status "paid" (tx_id t) t) []).
  - reflexivity.
  - cbn [transactions]. now rewrite filter_set_status, Hrows.
  - now rewrite set_status_own, Hpaid.
Qed.

Lemma webhook_marks_paid_before_it_credits_witness :
  let data := {| unic_id := "g1"; data_status := "paid" |} in
  let out := post_webhook_bullspay (fun n => Nat.eqb n 2) "connection refused"
               (Some "secret") gateway_headers (Some data) example_site in
  status out.1 = 500%nat /\
  ledger (post_webhook_bullspay reliable "connection refused" (Some "secret")
            gateway_headers (Some data) out.2).2
  = example_db.
Proof.
  intros data out.
  destruct (webhook_marks_paid_before_it_credits (fun n => Nat.eqb n 2) reliable
              "connection refused" (Some "secret") gateway_headers data example_site
              {| tx_id := "t1"; tx_user_id := "bob"; tx_type := "deposit";
                 tx_amount := 500.00; tx_status := "pending";
                 tx_gateway_id := Some "g1" |})
    as (Hresp & _ & _ & _ & Hlater); try reflexivity; try discriminate.
  fold out in Hresp, Hlater. split; [now rewrite Hresp | exact Hlater].
Defined.

(** X22. A withdrawal that the gateway reports failed or canceled is
    refunded once: on a server that refuses nothing, the first such report
    adds the amount back to the balance, and a further report, of failure or
    of cancellation, changes no ledger row. *)
Theorem failed_withdrawal_is_refunded_once
    (expectedKey : option string) (headers : gmap string string)
    (data data2 : webhook_data) (s : site) (t : transaction) (u : user_row) :
  isValidWebhookSource expectedKey headers = true ->
  unic_id data <> "" ->
  unic_id data2 = unic_id data ->
  failed_or_canceled (data_status data) = true ->
  failed_or_canceled (data_status data2) = true ->
  List.filter (has_gateway_id (unic_id data)) (transactions s) = [t] ->
  tx_type t = "withdrawal" ->
  failed_or_canceled (tx_status t) = false ->
  users (ledger s) !! tx_user_id t = Some u ->
  let s1 := (post_webhook_bullspay reliable "" expectedKey headers (Some data) s).2 in
  users (ledger s1) !! tx_user_id t
  = Some {| balance := balance u + tx_amount t;
            rollover_required := rollover_required u;
            first_deposit_made := first_deposit_made u |} /\
  ledger (post_webhook_bullspay reliable "" expectedKey headers (Some data2) s1).2
  = ledger s1.
Proof.
  intros Hauth Hid Hid2 Hfail Hfail2 Hrows Htype Hstatus Hu s1.
  assert (s1 = {| ledger := set_users (alter (with_balance (balance u + tx_amount t))
                                         (tx_user_id t) (users (ledger s))) (ledger s);
                  transactions := map (set_status (data_status data) (tx_id t))
                                    (transactions s) |}) as Hs1.
  { subst s1. unfold post_webhook_bullspay. rewrite Hauth. cbn [negb].
    destruct (String.eqb_spec (unic_id data) ""); [contradiction |].
    cbv [reliable]. rewrite Hrows, Htype, Hfail, Hstatus.
    cbn [String.eqb Ascii.eqb Bool.eqb andb negb].
    unfold callA, updateUserBalance. run_account. rewrite Hu.
    cbn [String.eqb Ascii.eqb Bool.eqb]. run_account. reflexivity. }
  rewrite Hs1. cbn [ledger]. split.
  - cbn [set_users users]. rewrite lookup_alter_eq, Hu. reflexivity.
  - unfold post_webhook_bullspay. rewrite Hauth, Hid2. cbn [negb transactions].
    destruct (String.eqb_spec (unic_id data) ""); [contradiction |].
    cbv [reliable]. rewrite filter_set_status, Hrows. cbn [map].
    rewrite set_status_own. cbn [tx_type tx_status tx_id]. rewrite Htype, Hfail, Hfail2.
    cbn [String.eqb Ascii.eqb Bool.eqb andb negb]. reflexivity.
Qed.

Lemma failed_withdrawal_is_refunded_once_witness :
  let s1 := (post_webhook_bullspay reliable "" (Some "secret") gateway_headers
               (Some {| unic_id := "g2"; data_status := "failed" |}) example_site).2 in
  (exists u', users (ledger s1) !! "alice" = Some u' /\ balance u' == 600.00) /\
  ledger (post_webhook_bullspay reliable "" (Some "secret") gateway_headers
            (Some {| unic_id := "g2"; data_status := "canceled" |}) s1).2
  = ledger s1.
Proof.
  intros s1.
  destruct (failed_withdrawal_is_refunded_once (Some "secret") gateway_headers
              {| unic_id := "g2"; data_status := "failed" |}
              {| unic_id := "g2"; data_status := "canceled" |} example_site
              {| tx_id := "t2"; tx_user_id := "alice"; tx_type := "withdrawal";
                 tx_amount := 100.00; tx_status := "approved";
                 tx_gateway_id := Some "g2" |} alice) as [Hrow Hagain];
    try (reflexivity || discriminate).
  fold s1 in Hrow, Hagain. split; [| exact Hagain].
  eexists. split; [exact Hrow | reflexivity].
Defined.

(** * The deposit status check and the webhook together *)

Lemma is_transaction_of_set_status id uid X i t :
  is_transaction_of id uid (set_status X i t) = is_transaction_of id uid t.
Proof. unfold set_status. now destruct (String.eqb (tx_id t) i). Qed.

Lemma filter_own_set_status id uid X i txs :
  List.filter (is_transaction_of id uid) (map (set_status X i) txs)
  = map (set_status X i) (List.filter (is_transaction_of id uid) txs).
Proof.
  induction txs as [| t txs IH]; [reflexivity |].
  cbn [map List.filter]. rewrite is_transaction_of_set_status, IH.
  now destruct (is_transaction_of id uid t).
Qed.

(** Once the transaction is marked paid, neither path touches the ledger. *)
Lemma confirm_settled expectedKey headers gatewayId userId transactionId cs :
  forall s t,
    List.filter (has_gateway_id gatewayId) (transactions s) = [t] ->
    List.filter (is_transaction_of transactionId userId) (transactions s) = [t] ->
    tx_status t = "paid" ->
    ledger (confirm expectedKey headers gatewayId userId transactionId cs s)
    = ledger s.
Proof.
  induction cs as [| c cs IH]; intros s t Hgw Hown Hpaid; [reflexivity |].
  destruct c; cbn [confirm].
  - set (data := {| unic_id := gatewayId; data_status := "paid" |}).
    pose proof (webhook_settled reliable "" expectedKey headers data s t []
                  Hgw Hpaid) as Hledger.
    rewrite <- Hledger.
    destruct (isValidWebhookSource expectedKey headers) eqn:Hauth.
    2: { assert ((post_webhook_bullspay reliable "" expectedKey headers (Some data) s).2
                 = s) as -> by (unfold post_webhook_bullspay; now rewrite Hauth).
         now apply (IH s t). }
    destruct (String.eqb_spec gatewayId "") as [Hid | Hid].
    { assert ((post_webhook_bullspay reliable "" expectedKey headers (Some data) s).2
              = s) as ->
        by (unfold post_webhook_bullspay; rewrite Hauth; cbn [negb unic_id data];
            rewrite Hid; reflexivity).
      now apply (IH s t). }
    pose proof (webhook_writes_status reliable "" expectedKey headers data s t []
                  Hauth Hid Hgw eq_refl eq_refl) as Htxs.
    apply (IH _ (set_status "paid" (tx_id t) t)).
    + rewrite Htxs, filter_set_status. cbn [unic_id data]. now rewrite Hgw.
    + rewrite Htxs, filter_own_set_status. now rewrite Hown.
    + now rewrite set_status_own.
  - assert ((get_deposit_check reliable "" false (GatewayLists (Some "paid"))
               userId transactionId s).2 = s) as ->.
    { unfold get_deposit_check. cbv [reliable]. rewrite Hown, Hpaid. reflexivity. }
    now apply (IH s t).
Qed.

(** X23. One credit across both paths: on a server that refuses
    nothing, whatever non-empty sequence of webhook deliveries and status
    checks confirms that a pending deposit is paid, the user's balance ends
    up larger by the amount of the deposit, once; the rollover ends up larger
    by that amount if this was the first deposit, and unchanged otherwise;
    and the flag is set. *)
Theorem paid_deposit_is_credited_once_across_paths
    (expectedKey : option string) (headers : gmap string string)
    (cs : list confirmation) (s : site) (t : transaction) (g : string)
    (u : user_row) :
  cs <> [] ->
  isValidWebhookSource expectedKey headers = true ->
  tx_gateway_id t = Some g -> g <> "" ->
  List.filter (has_gateway_id g) (transactions s) = [t] ->
  List.filter (is_transaction_of (tx_id t) (tx_user_id t)) (transactions s) = [t] ->
  tx_type t = "deposit" ->
  tx_status t = "pending" ->
  users (ledger s) !! tx_user_id t = Some u ->
  users (ledger (confirm expectedKey headers g (tx_user_id t) (tx_id t) cs s))
    !! tx_user_id t
  = Some {| balance := balance u + tx_amount t;
            rollover_required :=
              if first_deposit_made u then rollover_required u
              else rollover_required u + tx_amount t;
            first_deposit_made := true |}.
Proof.
  intros Hcs Hauth Hg Hne Hgw Hown Htype Hstatus Hu.
  destruct cs as [| c cs]; [contradiction |].
  pose proof (creditPaidDeposit_reliable (tx_user_id t)
                (tx_amount t) (ledger s) u Hu) as (Hout & Hrow & _).
  set (credited := (callA (creditPaidDeposit reliable (tx_user_id t) (tx_amount t))
                      (ledger s)).1.2) in *.
  assert (forall s1,
            s1 = {| ledger := credited;
                    transactions := map (set_status "paid" (tx_id t)) (transactions s) |} ->
            users (ledger (confirm expectedKey headers g (tx_user_id t) (tx_id t) cs s1))
              !! tx_user_id t
            = Some {| balance := balance u + tx_amount t;
                      rollover_required :=
                        if first_deposit_made u then rollover_required u
                        else rollover_required u + tx_amount t;
                      first_deposit_made := true |}) as Hrest.
  { intros s1 ->.
    rewrite (confirm_settled expectedKey headers g (tx_user_id t) (tx_id t) cs _
               (set_status "paid" (tx_id t) t)).
    - exact Hrow.
    - cbn [transactions]. now rewrite filter_set_status, Hgw.
    - cbn [transactions]. now rewrite filter_own_set_status, Hown.
    - now rewrite set_status_own. }
  destruct c; cbn [confirm]; apply Hrest.
  - unfold post_webhook_bullspay. rewrite Hauth. cbn [negb unic_id data_status].
    destruct (String.eqb_spec g ""); [contradiction |].
    cbv [reliable]. rewrite Hgw, Htype, Hstatus.
    cbn [String.eqb Ascii.eqb Bool.eqb andb negb].
    change (fun _ : nat => false) with reliable. subst credited.
    destruct (callA (creditPaidDeposit reliable (tx_user_id t) (tx_amount t))
                (ledger s)) as [[[b | e] d'] tr]; cbn [fst snd] in *;
      [reflexivity | discriminate].
  - unfold get_deposit_check. cbv [reliable]. rewrite Hown, Hstatus.
    cbn [String.eqb Ascii.eqb Bool.eqb andb orb negb].
    change (fun _ : nat => false) with reliable. subst credited.
    destruct (callA (creditPaidDeposit reliable (tx_user_id t) (tx_amount t))
                (ledger s)) as [[[b | e] d'] tr]; cbn [fst snd] in *;
      [reflexivity | discriminate].
Qed.

Lemma paid_deposit_is_credited_once_across_paths_witness :
  exists u',
    users (ledger (confirm (Some "secret") gateway_headers "g1" "bob" "t1"
                     [ByStatusCheck; ByWebhook; ByStatusCheck; ByWebhook]
                     example_site))
      !! "bob" = Some u' /\
    balance u' == 510.00 /\ rollover_required u' == 501.00.
Proof.
  eexists. split.
  - apply (paid_deposit_is_credited_once_across_paths (Some "secret") gateway_headers
             [ByStatusCheck; ByWebhook; ByStatusCheck; ByWebhook] example_site
             {| tx_id := "t1"; tx_user_id := "bob"; tx_type := "deposit";
                tx_amount := 500.00; tx_status := "pending";
                tx_gateway_id := Some "g1" |} "g1" bob);
      reflexivity || discriminate.
  - split; vm_compute; reflexivity.
Defined.

(** * The fraud check *)

Lemma keeps_ret bound acc : score_within bound acc -> keeps bound (retF acc).
Proof. intros Hacc n. exact Hacc. Qed.

Lemma keeps_throw bound : keeps bound throwF.
Proof. intros n. exact I. Qed.

Lemma keeps_bind bound1 bound2 m k :
  keeps bound1 m ->
  (forall acc, score_within bound1 acc -> keeps bound2 (k acc)) ->
  keeps bound2 (bindF m k).
Proof.
  intros Hm Hk n. unfold bindF. specialize (Hm n).
  destruct (m n) as [[acc n1] |]; [| exact I]. now apply Hk.
Qed.

Lemma keeps_after_query faults bound (k : unit -> F (list alert * nat)) :
  keeps bound (k tt) -> keeps bound (bindF (pool_query faults) k).
Proof.
  intros Hk n. unfold bindF, pool_query. destruct (faults n); [exact I |]. apply Hk.
Qed.

Lemma score_within_add bound points a acc :
  (points <= 50)%nat -> score_within bound acc ->
  score_within (bound + points) (acc.1 ++ [a], (acc.2 + points)%nat).
Proof.
  intros Hp [H50 Hb]. unfold score_within. cbn [fst snd].
  rewrite length_app. cbn [length]. lia.
Qed.

Lemma score_within_weaken bound points acc :
  score_within bound acc -> score_within (bound + points) acc.
Proof. intros [H50 Hb]. split; [exact H50 | lia]. Qed.

Lemma keeps_recorded_heuristic faults fires points a bound acc :
  (points <= 50)%nat -> score_within bound acc ->
  keeps (bound + points) (recorded_heuristic faults fires points a acc).
Proof.
  intros Hp Hacc. unfold recorded_heuristic. apply keeps_after_query.
  destruct fires.
  - apply keeps_after_query, keeps_ret. now apply score_within_add.
  - apply keeps_ret. now apply score_within_weaken.
Qed.

Lemma keeps_reported_heuristic faults fires points a bound acc :
  (points <= 50)%nat -> score_within bound acc ->
  keeps (bound + points) (reported_heuristic faults fires points a acc).
Proof.
  intros Hp Hacc. unfold reported_heuristic. apply keeps_after_query, keeps_ret.
  destruct fires; [now apply score_within_add | now apply score_within_weaken].
Qed.

(** X24. [checkUserFraud] never scores above 200, and scores above 50
    (the mark from which a withdrawal is noted as a high risk) only with at
    least two alerts: no heuristic is enough on its own, not even the
    critical one.  For a user that does not exist, and whenever the server
    refuses the first query, it returns no alert and a score of zero. *)
Theorem checkUserFraud_score
    (faults : nat -> bool) (userBalance : option Q) (f : fraud_facts) :
  let out := checkUserFraud faults userBalance f in
  (out.2 <= 200)%nat /\
  ((50 < out.2)%nat -> (2 <= length out.1)%nat) /\
  (userBalance = None \/ faults 0%nat = true -> out = ([], 0%nat)).
Proof.
  intros out. subst out. unfold checkUserFraud.
  match goal with
  | |- context [match ?body 0%nat with _ => _ end] =>
      assert (keeps 200 body) as Hkeeps; [| set (b := body) in * ]
  end.
  { apply keeps_after_query.
    destruct userBalance as [balance |];
      [| apply keeps_ret; split; cbn [fst snd length]; lia].
    eapply keeps_bind;
      [apply (keeps_recorded_heuristic faults _ 30 _ 0); [lia | split; cbn; lia] |].
    intros acc1 H1. eapply keeps_bind;
      [apply (keeps_recorded_heuristic faults _ 50 _ 30); [lia | exact H1] |].
    intros acc2 H2. eapply (keeps_bind 120).
    { apply keeps_after_query. destruct (quick_withdrawal f).
      - destruct (minutes_diff_is_number f); [| apply keeps_throw].
        apply keeps_after_query, keeps_ret.
        apply (score_within_add 80 40); [lia | exact H2].
      - apply keeps_ret. apply (score_within_weaken 80 40), H2. }
    intros acc3 H3. eapply keeps_bind;
      [apply (keeps_recorded_heuristic faults _ 20 _ 120); [lia | exact H3] |].
    intros acc4 H4. eapply keeps_bind;
      [apply (keeps_reported_heuristic faults _ 15 _ 140); [lia | exact H4] |].
    intros acc5 H5. eapply keeps_bind;
      [apply (keeps_reported_heuristic faults _ 25 _ 155); [lia | exact H5] |].
    intros acc6 H6.
    apply (keeps_reported_heuristic faults _ 20 _ 180); [lia | exact H6]. }
  split; [| split].
  - specialize (Hkeeps 0%nat). destruct (b 0%nat) as [[acc n] |];
      [apply Hkeeps | cbn; lia].
  - specialize (Hkeeps 0%nat). destruct (b 0%nat) as [[acc n] |]; [| cbn; lia].
    destruct Hkeeps as [H50 _]. cbn [fst snd] in *. intros Hscore.
    destruct (length acc.1) as [| [| k]]; lia.
  - subst b. intros [-> | Hf]; unfold bindF, pool_query, retF.
    + now destruct (faults 0%nat).
    + now rewrite Hf.
Qed.

Lemma checkUserFraud_score_witness :
  let out :=
    checkUserFraud reliable (Some 10)
      {| same_cpf_accounts := 2; total_games := 30; wins := 29;
         quick_withdrawal := true; minutes_diff_is_number := true;
         failed_deposits := 6; night_games := 0; high_bets := 1;
         refused_withdrawals := 0 |} in
  (out.2 <= 200)%nat /\ (2 <= length out.1)%nat.
Proof.
  intros out.
  destruct (checkUserFraud_score reliable (Some 10)
    {| same_cpf_accounts := 2; total_games := 30; wins := 29;
       quick_withdrawal := true; minutes_diff_is_number := true;
       failed_deposits := 6; night_games := 0; high_bets := 1;
       refused_withdrawals := 0 |}) as (Hmax & Htwo & _).
  split; [exact Hmax | apply Htwo; vm_compute; lia].
Defined.
